(** * Alias indexing pipeline ([scripts/embed_aliases.py])

    A shallow embedding of the script that indexes song aliases into a
    vector store, and the properties of its pipeline.

    Definitions:
    - [PyStr]  Python [str] values, their UTF-8 encoding, [str(int)];
    - [MD5]    the digest behind [hashlib.md5];
    - [UUID]   [uuid.UUID(hex=...)] and its canonical text;
    - [Json]   the objects [resp.json()] yields and the dynamic
               operations the script applies to them;
    - the collaborators ([Runtime], [World]) and the event trace;
    - the script: [generate_uuid], [get_embedding], [index_song],
      [fetch_music_ids], [main], and the collection bootstrap;
    - [Demo]   a concrete world to run the script in;
    - observations on traces.

    Properties follow, one section per part of the script.  The reading
    of the environment variables and the construction of the client
    (lines 17-43 of the script) are not modelled. *)

From Stdlib Require Import String Ascii ZArith NArith List Lia Bool.
From Stdlib Require Import Permutation Sorted.
From Stdlib Require Import Floats.SpecFloat.
Import ListNotations.
Local Open Scope Z_scope.
Set Warnings "-register-all".

(* ------------------------------------------------------------------ *)
(** ** Python strings *)

Module PyStr.

(** A Python [str] is a sequence of code points.  Python itself keeps
    every code point below [0x110000]; lone surrogates are allowed in a
    [str] (the JSON parser produces them from escapes such as
    ["\ud800"]) but cannot be encoded. *)
Definition str := list N.

(** An ASCII literal of the script. *)
Definition lit (s : string) : str :=
  map N_of_ascii (list_ascii_of_string s).

Definition is_surrogate (z : Z) : bool := (0xD800 <=? z) && (z <=? 0xDFFF).

(** [c.encode('utf-8')] for one code point; [None] stands for
    [UnicodeEncodeError]. *)
Definition utf8_char (c : N) : option (list Z) :=
  let z := Z.of_N c in
  if z <? 0x80 then Some [z]
  else if z <? 0x800 then
    Some [Z.lor 0xC0 (Z.shiftr z 6); Z.lor 0x80 (Z.land z 0x3F)]
  else if z <? 0x10000 then
    if is_surrogate z then None
    else Some [Z.lor 0xE0 (Z.shiftr z 12);
               Z.lor 0x80 (Z.land (Z.shiftr z 6) 0x3F);
               Z.lor 0x80 (Z.land z 0x3F)]
  else if z <? 0x110000 then
    Some [Z.lor 0xF0 (Z.shiftr z 18);
          Z.lor 0x80 (Z.land (Z.shiftr z 12) 0x3F);
          Z.lor 0x80 (Z.land (Z.shiftr z 6) 0x3F);
          Z.lor 0x80 (Z.land z 0x3F)]
  else None.

Fixpoint utf8_encode (s : str) : option (list Z) :=
  match s with
  | [] => Some []
  | c :: rest =>
      match utf8_char c, utf8_encode rest with
      | Some bs, Some more => Some (bs ++ more)
      | _, _ => None
      end
  end.

(** A string Python can encode: every code point is a Unicode scalar
    value. *)
Definition scalar (c : N) : bool :=
  let z := Z.of_N c in (z <? 0x110000) && negb (is_surrogate z).

Definition well_formed (s : str) : bool := forallb scalar s.

(** [str(n)] for an [int]. *)
Definition digit_char (d : Z) : N := Z.to_N (48 + d).

Fixpoint pos_digits (fuel : nat) (n : Z) (acc : str) : str :=
  match fuel with
  | O => acc
  | S fuel' =>
      let acc' := digit_char (n mod 10) :: acc in
      if n <? 10 then acc' else pos_digits fuel' (n / 10) acc'
  end.

Definition str_of_int (n : Z) : str :=
  if n <? 0 then 45%N :: pos_digits (Z.to_nat (Z.log2 (- n)) + 1) (- n) []
  else pos_digits (Z.to_nat (Z.log2 n) + 1) n [].

(** [needle in hay] for two strings. *)
Fixpoint starts_with (p s : str) : bool :=
  match p, s with
  | [], _ => true
  | _ :: _, [] => false
  | a :: p', b :: s' => N.eqb a b && starts_with p' s'
  end.

Fixpoint contains (hay needle : str) : bool :=
  starts_with needle hay ||
  match hay with
  | [] => false
  | _ :: hay' => contains hay' needle
  end.

End PyStr.

(* ------------------------------------------------------------------ *)
(** ** MD5 (RFC 1321), as computed by [hashlib.md5] *)

Module MD5.

Definition add32 (a b : Z) : Z := (a + b) mod 2 ^ 32.
Definition not32 (x : Z) : Z := Z.lxor x 0xFFFFFFFF.
Definition rotl32 (x s : Z) : Z :=
  Z.lor (Z.shiftl x s mod 2 ^ 32) (Z.shiftr x (32 - s)).

Definition K : list Z :=
  [ 0xd76aa478; 0xe8c7b756; 0x242070db; 0xc1bdceee;
    0xf57c0faf; 0x4787c62a; 0xa8304613; 0xfd469501;
    0x698098d8; 0x8b44f7af; 0xffff5bb1; 0x895cd7be;
    0x6b901122; 0xfd987193; 0xa679438e; 0x49b40821;
    0xf61e2562; 0xc040b340; 0x265e5a51; 0xe9b6c7aa;
    0xd62f105d; 0x02441453; 0xd8a1e681; 0xe7d3fbc8;
    0x21e1cde6; 0xc33707d6; 0xf4d50d87; 0x455a14ed;
    0xa9e3e905; 0xfcefa3f8; 0x676f02d9; 0x8d2a4c8a;
    0xfffa3942; 0x8771f681; 0x6d9d6122; 0xfde5380c;
    0xa4beea44; 0x4bdecfa9; 0xf6bb4b60; 0xbebfbc70;
    0x289b7ec6; 0xeaa127fa; 0xd4ef3085; 0x04881d05;
    0xd9d4d039; 0xe6db99e5; 0x1fa27cf8; 0xc4ac5665;
    0xf4292244; 0x432aff97; 0xab9423a7; 0xfc93a039;
    0x655b59c3; 0x8f0ccc92; 0xffeff47d; 0x85845dd1;
    0x6fa87e4f; 0xfe2ce6e0; 0xa3014314; 0x4e0811a1;
    0xf7537e82; 0xbd3af235; 0x2ad7d2bb; 0xeb86d391 ].

Definition shifts : list Z :=
  [ 7; 12; 17; 22; 7; 12; 17; 22; 7; 12; 17; 22; 7; 12; 17; 22;
    5; 9; 14; 20; 5; 9; 14; 20; 5; 9; 14; 20; 5; 9; 14; 20;
    4; 11; 16; 23; 4; 11; 16; 23; 4; 11; 16; 23; 4; 11; 16; 23;
    6; 10; 15; 21; 6; 10; 15; 21; 6; 10; 15; 21; 6; 10; 15; 21 ].

Record state := State { sa : Z; sb : Z; sc : Z; sd : Z }.

Definition init : state :=
  State 0x67452301 0xefcdab89 0x98badcfe 0x10325476.

(** Little-endian 32-bit words of a block. *)
Fixpoint words (bs : list Z) : list Z :=
  match bs with
  | b0 :: b1 :: b2 :: b3 :: rest =>
      (b0 + b1 * 2 ^ 8 + b2 * 2 ^ 16 + b3 * 2 ^ 24) :: words rest
  | _ => []
  end.

Definition round (M : list Z) (st : state) (i : nat) : state :=
  let '(State a b c d) := st in
  let iz := Z.of_nat i in
  let '(f, g) :=
    if iz <? 16 then (Z.lor (Z.land b c) (Z.land (not32 b) d), iz)
    else if iz <? 32 then
      (Z.lor (Z.land d b) (Z.land (not32 d) c), (5 * iz + 1) mod 16)
    else if iz <? 48 then (Z.lxor (Z.lxor b c) d, (3 * iz + 5) mod 16)
    else (Z.lxor c (Z.lor b (not32 d)), (7 * iz) mod 16) in
  let f' := add32 (add32 (add32 f a) (nth i K 0)) (nth (Z.to_nat g) M 0) in
  State d (add32 b (rotl32 f' (nth i shifts 0))) b c.

Definition block (st : state) (bs : list Z) : state :=
  let st' := fold_left (round (words bs)) (seq 0 64) st in
  State (add32 (sa st) (sa st')) (add32 (sb st) (sb st'))
        (add32 (sc st) (sc st')) (add32 (sd st) (sd st')).

Fixpoint blocks (fuel : nat) (st : state) (bs : list Z) : state :=
  match fuel, bs with
  | S fuel', _ :: _ => blocks fuel' (block st (firstn 64 bs)) (skipn 64 bs)
  | _, _ => st
  end.

Definition le_bytes (n : nat) (x : Z) : list Z :=
  map (fun i => Z.shiftr x (8 * Z.of_nat i) mod 256) (seq 0 n).

Definition pad (msg : list Z) : list Z :=
  let len := Z.of_nat (length msg) in
  let zeros := Z.to_nat ((55 - len) mod 64) in
  msg ++ 0x80 :: repeat 0 zeros ++ le_bytes 8 ((8 * len) mod 2 ^ 64).

(** [hashlib.md5(msg).digest()]: sixteen bytes. *)
Definition digest (msg : list Z) : list Z :=
  let p := pad msg in
  let st := blocks (length p) init p in
  le_bytes 4 (sa st) ++ le_bytes 4 (sb st) ++
  le_bytes 4 (sc st) ++ le_bytes 4 (sd st).

Definition hex_char (d : Z) : N :=
  if d <? 10 then Z.to_N (48 + d) else Z.to_N (87 + d).

Definition hex_byte (b : Z) : PyStr.str := [hex_char (b / 16); hex_char (b mod 16)].

(** [hashlib.md5(msg).hexdigest()]: thirty-two lower-case hex digits. *)
Definition hexdigest (msg : list Z) : PyStr.str :=
  flat_map hex_byte (digest msg).

End MD5.

(* ------------------------------------------------------------------ *)
(** ** UUID values, as built and printed by the [uuid] module *)

Module UUID.
Import PyStr.

Definition hex_val (c : N) : option Z :=
  let z := Z.of_N c in
  if (48 <=? z) && (z <=? 57) then Some (z - 48)
  else if (97 <=? z) && (z <=? 102) then Some (z - 87)
  else if (65 <=? z) && (z <=? 70) then Some (z - 55)
  else None.

(** [int(h, 16)] on a string of hex digits. *)
Fixpoint int_of_hex (acc : Z) (h : str) : option Z :=
  match h with
  | [] => Some acc
  | c :: rest =>
      match hex_val c with
      | Some d => int_of_hex (acc * 16 + d) rest
      | None => None
      end
  end.

(** [uuid.UUID(hex=h)]: the 128-bit value, or [None] for [ValueError].
    The constructor first drops ["urn:"], ["uuid:"], braces and hyphens;
    a hex digest holds none of them, so the model starts at the length
    check. *)
Definition of_hex (h : str) : option Z :=
  if (length h =? 32)%nat then int_of_hex 0 h else None.

(** [uuid.UUID(bytes=b)]: the sixteen octets read big-endian. *)
Definition of_bytes (b : list Z) : option Z :=
  if (length b =? 16)%nat then Some (fold_left (fun acc x => acc * 256 + x) b 0)
  else None.

(** ['%032x' % n] for [0 <= n < 2^128]. *)
Fixpoint hex_digits (k : nat) (n : Z) : str :=
  match k with
  | O => []
  | S k' => hex_digits k' (n / 16) ++ [MD5.hex_char (n mod 16)]
  end.

Definition slice (i j : nat) (s : str) : str := firstn (j - i) (skipn i s).

(** [str(u)]: the canonical 8-4-4-4-12 form. *)
Definition to_str (n : Z) : str :=
  let hex := hex_digits 32 n in
  slice 0 8 hex ++ lit "-" ++ slice 8 12 hex ++ lit "-" ++
  slice 12 16 hex ++ lit "-" ++ slice 16 20 hex ++ lit "-" ++ skipn 20 hex.

Definition octet (b : Z) : Prop := 0 <= b < 256.

(** The canonical text of sixteen octets: the hex of octets 0-3, 4-5,
    6-7, 8-9 and 10-15, joined by hyphens. *)
Definition hex_of (b : list Z) : str := flat_map MD5.hex_byte b.

Definition canonical (b : list Z) : str :=
  hex_of (firstn 4 b) ++ lit "-" ++ hex_of (firstn 2 (skipn 4 b)) ++ lit "-" ++
  hex_of (firstn 2 (skipn 6 b)) ++ lit "-" ++
  hex_of (firstn 2 (skipn 8 b)) ++ lit "-" ++ hex_of (skipn 10 b).

End UUID.

(* ------------------------------------------------------------------ *)
(** ** Exceptions and results *)

(** The exceptions the script can meet; every one derives from
    [Exception], so [except Exception] catches all of them. *)
Inductive exn :=
| UnicodeEncodeError
| ValueError
| TypeError
| KeyError
| IndexError
| AttributeError
| JSONDecodeError
| ValidationError
| LibraryError (code : Z).

Inductive result (A : Type) :=
| Ok (a : A)
| Raise (e : exn).
Arguments Ok {A} a.
Arguments Raise {A} e.

(* ------------------------------------------------------------------ *)
(** ** JSON documents as Python objects *)

Module Json.
Import PyStr.

(** What [resp.json()] returns.  A dict is its item list in insertion
    order; the keys of a parsed document are distinct strings. *)
Inductive json :=
| JNull
| JBool (b : bool)
| JInt (n : Z)
| JFloat (f : spec_float)
| JStr (s : str)
| JArr (items : list json)
| JObj (fields : list (str * json)).

Fixpoint str_eqb (a b : str) : bool :=
  match a, b with
  | [], [] => true
  | x :: a', y :: b' => N.eqb x y && str_eqb a' b'
  | _, _ => false
  end.

(** [bool(v)], the test behind [if not v]. *)
Definition truthy (v : json) : bool :=
  match v with
  | JNull => false
  | JBool b => b
  | JInt n => negb (n =? 0)
  | JFloat (S754_zero _) => false
  | JFloat _ => true
  | JStr [] => false
  | JStr _ => true
  | JArr [] => false
  | JArr _ => true
  | JObj [] => false
  | JObj _ => true
  end.

Fixpoint lookup (k : str) (fields : list (str * json)) : option json :=
  match fields with
  | [] => None
  | (k', v) :: rest => if str_eqb k k' then Some v else lookup k rest
  end.

(** [d.get(k, default)]; only a dict has the method. *)
Definition dict_get (d : json) (k : str) (default : json) : result json :=
  match d with
  | JObj fields =>
      match lookup k fields with
      | Some v => Ok v
      | None => Ok default
      end
  | _ => Raise AttributeError
  end.

(** [d[k]] for a string key [k]. *)
Definition getitem_key (d : json) (k : str) : result json :=
  match d with
  | JObj fields =>
      match lookup k fields with
      | Some v => Ok v
      | None => Raise KeyError
      end
  | _ => Raise TypeError
  end.

(** [d[0]]. *)
Definition getitem_0 (d : json) : result json :=
  match d with
  | JArr (x :: _) => Ok x
  | JArr [] => Raise IndexError
  | JStr (c :: _) => Ok (JStr [c])
  | JStr [] => Raise IndexError
  | JObj _ => Raise KeyError
  | _ => Raise TypeError
  end.

(** The values a [for] loop or a comprehension draws from [v]. *)
Definition iterate (v : json) : result (list json) :=
  match v with
  | JArr items => Ok items
  | JStr s => Ok (map (fun c => JStr [c]) s)
  | JObj fields => Ok (map (fun kv => JStr (fst kv)) fields)
  | _ => Raise TypeError
  end.

(** [k in v] for a string [k]. *)
Definition contains_key (k : str) (v : json) : result bool :=
  match v with
  | JObj fields =>
      Ok (match lookup k fields with Some _ => true | None => false end)
  | JStr s => Ok (contains s k)
  | JArr items =>
      Ok (existsb (fun x => match x with JStr s => str_eqb s k | _ => false end)
                  items)
  | _ => Raise TypeError
  end.

End Json.
Export Json.
Import PyStr.

(* ------------------------------------------------------------------ *)
(** ** Configuration constants of the script *)

Definition HARUKI_API_BASE : str :=
  lit "https://public-api.haruki.seiunx.com/alias/v1/music".
Definition SILICONFLOW_API_URL : str :=
  lit "https://api.siliconflow.cn/v1/embeddings".
Definition SILICONFLOW_MODEL : str := lit "BAAI/bge-m3".
Definition COLLECTION_NAME : str := lit "song_aliases".
Definition VECTOR_SIZE : Z := 1024.
Definition MUSICS_JSON_URL : str :=
  lit "https://raw.githubusercontent.com/Team-Haruki/haruki-sekai-master/main/master/musics.json".

(* ------------------------------------------------------------------ *)
(** ** Collaborators: HTTP responses, points, events *)

(** A [requests.Response]: [body] is what [resp.json()] parses, [None]
    when the text is not JSON and [resp.json()] raises. *)
Record response := Response {
  status_code : Z;
  text : str;
  body : option json
}.

Definition resp_json (resp : response) : result json :=
  match body resp with
  | Some j => Ok j
  | None => Raise JSONDecodeError
  end.

(** [models.PointStruct]. *)
Record point := Point {
  point_id : str;
  point_vector : json;
  point_payload : list (str * json)
}.

Inductive distance := COSINE | EUCLID | DOT.

(** The console lines of the script, by format string. *)
Inductive log :=
| LogCreating (name : str)
| LogEmbeddingError (resp_text : str)
| LogApiError (mid : json) (status : Z)
| LogFetching (url : str)
| LogFetchFailed (status : Z)
| LogParseError (e : exn)
| LogFound (n : Z)
| LogIndexed (mid : json) (count : Z)
| LogIndexError (mid : json) (e : exn)
| LogComplete (total : Z).

(** One observable action, with the outcome the collaborator gave. *)
Inductive event :=
| EvGet (url : str) (r : result response)
| EvPost (url : str) (payload : json) (headers : list (str * str))
         (r : result response)
| EvExists (name : str) (r : result bool)
| EvCreate (name : str) (size : Z) (dist : distance) (r : result unit)
| EvUpsert (name : str) (points : list point) (r : result unit)
| EvPrint (line : log).

Definition trace := list event.

(** The parts of the Python runtime and of the client library that the
    model does not compute:
    - [py_repr]: [format(v, '')] of a float, list or dict (the shortest
      float printer and the Unicode tables decide it);
    - [sort_other]: [list.sort()] on a list that holds something else
      than [int]s and [str]s (floats, booleans, [None], lists, dicts);
    - [validate_vector]: what [PointStruct] validation stores as the
      point's vector for the value passed as [vector] (the class
      converts integer components to floats, so the stored value need
      not be the value passed), [None] when validation raises. *)
Record Runtime := {
  py_repr : json -> str;
  sort_other : list json -> result (list json);
  validate_vector : json -> option json
}.

(** The services the script talks to.  Each answer may depend on
    everything that happened before; an answer [Raise e] is the call
    raising (connection failure, server error reported by the client). *)
Record World := {
  requests_get : trace -> str -> result response;
  requests_post : trace -> str -> json -> list (str * str) -> result response;
  client_collection_exists : trace -> str -> result bool;
  client_create_collection : trace -> str -> Z -> distance -> result unit;
  client_upsert : trace -> str -> list point -> result unit
}.

(* ------------------------------------------------------------------ *)
(** ** The monad of the script: exceptions over an event trace

    A computation reads the trace so far and returns its outcome with
    the events it added. *)

Definition M (A : Type) : Type := trace -> result A * trace.

Definition ret {A} (a : A) : M A := fun _ => (Ok a, []).

Definition lift {A} (r : result A) : M A := fun _ => (r, []).

Definition bind {A B} (m : M A) (k : A -> M B) : M B :=
  fun h =>
    match m h with
    | (Ok a, e1) => let '(r, e2) := k a (h ++ e1) in (r, e1 ++ e2)
    | (Raise e, e1) => (Raise e, e1)
    end.

(** [try: m except Exception as e: handler e]. *)
Definition try_except {A} (m : M A) (handler : exn -> M A) : M A :=
  fun h =>
    match m h with
    | (Ok a, e1) => (Ok a, e1)
    | (Raise e, e1) => let '(r, e2) := handler e (h ++ e1) in (r, e1 ++ e2)
    end.

Definition print (line : log) : M unit := fun _ => (Ok tt, [EvPrint line]).

Declare Scope py_scope.
Delimit Scope py_scope with py.
Notation "x <- m ;; k" := (bind m (fun x => k))
  (at level 61, m at next level, right associativity) : py_scope.
Notation "m ;; k" := (bind m (fun _ => k))
  (at level 61, right associativity) : py_scope.
Local Open Scope py_scope.

(* ------------------------------------------------------------------ *)
(** ** Pure helpers of the script *)

Section Pure.
Variable R : Runtime.

(** [f"{v}"]. *)
Definition py_format (v : json) : str :=
  match v with
  | JStr s => s
  | JInt n => str_of_int n
  | JBool true => lit "True"
  | JBool false => lit "False"
  | JNull => lit "None"
  | _ => py_repr R v
  end.

(** [raw = f"{mid}-{alias}"]. *)
Definition raw_key (mid alias : json) : str :=
  py_format mid ++ lit "-" ++ py_format alias.

(** [generate_uuid(mid, alias)]:
    [str(uuid.UUID(hex=hashlib.md5(raw.encode('utf-8')).hexdigest()))]. *)
Definition generate_uuid (mid alias : json) : result str :=
  let raw := raw_key mid alias in
  match utf8_encode raw with
  | None => Raise UnicodeEncodeError
  | Some bytes =>
      match UUID.of_hex (MD5.hexdigest bytes) with
      | None => Raise ValueError
      | Some u => Ok (UUID.to_str u)
      end
  end.

(** The identifier as the specification words it: the sixteen digest
    octets of the UTF-8 bytes of ["{mid}-{alias}"], read as a UUID. *)
Definition generate_uuid_spec (mid alias : json) : result str :=
  match utf8_encode (py_format mid ++ lit "-" ++ py_format alias) with
  | None => Raise UnicodeEncodeError
  | Some bytes =>
      match UUID.of_bytes (MD5.digest bytes) with
      | None => Raise ValueError
      | Some u => Ok (UUID.to_str u)
      end
  end.

(** [models.PointStruct(id=..., vector=..., payload=...)]: the point
    holds the validated vector, not the argument itself. *)
Definition PointStruct (id : str) (vector : json)
    (payload : list (str * json)) : result point :=
  match validate_vector R vector with
  | Some stored => Ok (Point id stored payload)
  | None => Raise ValidationError
  end.

(** [ids.sort()] on integers. *)
Fixpoint insert_int (x : Z) (l : list Z) : list Z :=
  match l with
  | [] => [x]
  | y :: l' => if x <=? y then x :: l else y :: insert_int x l'
  end.

Definition sort_ints (l : list Z) : list Z := fold_right insert_int [] l.

Fixpoint all_ints (l : list json) : option (list Z) :=
  match l with
  | [] => Some []
  | JInt n :: l' => option_map (cons n) (all_ints l')
  | _ :: _ => None
  end.

(** [ids.sort()] on strings: [str] compares code point by code point,
    a proper prefix first. *)
Fixpoint str_leb (a b : str) : bool :=
  match a, b with
  | [], _ => true
  | _ :: _, [] => false
  | x :: a', y :: b' =>
      if (x <? y)%N then true
      else if (x =? y)%N then str_leb a' b'
      else false
  end.

Fixpoint insert_str (x : str) (l : list str) : list str :=
  match l with
  | [] => [x]
  | y :: l' => if str_leb x y then x :: l else y :: insert_str x l'
  end.

Definition sort_strs (l : list str) : list str := fold_right insert_str [] l.

Fixpoint all_strs (l : list json) : option (list str) :=
  match l with
  | [] => Some []
  | JStr s :: l' => option_map (cons s) (all_strs l')
  | _ :: _ => None
  end.

Definition int_or_str (v : json) : bool :=
  match v with JInt _ | JStr _ => true | _ => false end.

(** [ids.sort()].  Integers sort among themselves and strings among
    themselves; a list that holds both makes the sort compare an [int]
    with a [str], whatever its schedule, and [<] between them raises
    [TypeError]. *)
Definition list_sort (ids : list json) : result (list json) :=
  match all_ints ids with
  | Some ns => Ok (map JInt (sort_ints ns))
  | None =>
      match all_strs ids with
      | Some ss => Ok (map JStr (sort_strs ss))
      | None =>
          if forallb int_or_str ids then Raise TypeError
          else sort_other R ids
      end
  end.

(** [[item['id'] for item in musics if 'id' in item]]. *)
Fixpoint collect_ids (items : list json) : result (list json) :=
  match items with
  | [] => Ok []
  | item :: rest =>
      match contains_key (lit "id") item with
      | Raise e => Raise e
      | Ok false => collect_ids rest
      | Ok true =>
          match getitem_key item (lit "id") with
          | Raise e => Raise e
          | Ok v =>
              match collect_ids rest with
              | Raise e => Raise e
              | Ok vs => Ok (v :: vs)
              end
          end
      end
  end.

End Pure.

(* ------------------------------------------------------------------ *)
(** ** The script's functions *)

Section Script.
Variable R : Runtime.
Variable W : World.
(** [SILICONFLOW_API_KEY] of the environment. *)
Variable SILICONFLOW_KEY : str.

Definition http_get (url : str) : M response :=
  fun h => let r := requests_get W h url in (r, [EvGet url r]).

Definition http_post (url : str) (payload : json)
    (headers : list (str * str)) : M response :=
  fun h => let r := requests_post W h url payload headers in
           (r, [EvPost url payload headers r]).

Definition collection_exists (name : str) : M bool :=
  fun h => let r := client_collection_exists W h name in (r, [EvExists name r]).

Definition create_collection (name : str) (size : Z) (dist : distance)
    : M unit :=
  fun h => let r := client_create_collection W h name size dist in
           (r, [EvCreate name size dist r]).

Definition upsert (name : str) (points : list point) : M unit :=
  fun h => let r := client_upsert W h name points in
           (r, [EvUpsert name points r]).

(** Lines 45-51: "Ensure Collection". *)
Definition ensure_collection : M unit :=
  present <- collection_exists COLLECTION_NAME ;;
  if negb present then
    print (LogCreating COLLECTION_NAME) ;;
    create_collection COLLECTION_NAME VECTOR_SIZE COSINE
  else ret tt.

(** The [headers] and [data] dicts of [get_embedding]. *)
Definition embedding_headers : list (str * str) :=
  [ (lit "Authorization", lit "Bearer " ++ SILICONFLOW_KEY);
    (lit "Content-Type", lit "application/json") ].

Definition embedding_data (text_in : json) : json :=
  JObj [ (lit "model", JStr SILICONFLOW_MODEL); (lit "input", text_in) ].

(** The answer of the embedding service to [text_in] after [h], and the
    event that records it. *)
Definition post_answer (h : trace) (text_in : json) : result response :=
  requests_post W h SILICONFLOW_API_URL (embedding_data text_in)
    embedding_headers.

Definition post_event (h : trace) (text_in : json) : event :=
  EvPost SILICONFLOW_API_URL (embedding_data text_in) embedding_headers
    (post_answer h text_in).

(** [get_embedding(text)]; Python's [None] is [JNull]. *)
Definition get_embedding (text_in : json) : M json :=
  let headers := embedding_headers in
  let data := embedding_data text_in in
  resp <- http_post SILICONFLOW_API_URL data headers ;;
  if negb (status_code resp =? 200) then
    print (LogEmbeddingError (text resp)) ;;
    ret JNull
  else
    json_resp <- lift (resp_json resp) ;;
    d <- lift (dict_get json_resp (lit "data") JNull) ;;
    if negb (truthy d) then ret JNull
    else
      d' <- lift (getitem_key json_resp (lit "data")) ;;
      first <- lift (getitem_0 d') ;;
      lift (getitem_key first (lit "embedding")).

(** The [payload] dict of a point. *)
Definition alias_payload (mid alias : json) : list (str * json) :=
  [ (lit "mid", mid); (lit "alias", alias);
    (lit "source", JStr (lit "haruki")) ].

(** The [for alias in aliases] loop of [index_song]; [points] is the
    list built so far. *)
Fixpoint index_aliases (mid : json) (aliases : list json)
    (points : list point) : M (list point) :=
  match aliases with
  | [] => ret points
  | alias :: rest =>
      vec <- get_embedding alias ;;
      if negb (truthy vec) then index_aliases mid rest points
      else
        pid <- lift (generate_uuid R mid alias) ;;
        p <- lift (PointStruct R pid vec (alias_payload mid alias)) ;;
        index_aliases mid rest (points ++ [p])
  end.

(** [url = f"{HARUKI_API_BASE}/{mid}"]. *)
Definition song_url (mid : json) : str :=
  HARUKI_API_BASE ++ lit "/" ++ py_format R mid.

(** [index_song(mid)]. *)
Definition index_song (mid : json) : M Z :=
  let url := song_url mid in
  resp <- http_get url ;;
  if status_code resp =? 404 then ret 0
  else if negb (status_code resp =? 200) then
    print (LogApiError mid (status_code resp)) ;;
    ret 0
  else
    data <- lift (resp_json resp) ;;
    aliases <- lift (dict_get data (lit "aliases") (JArr [])) ;;
    if negb (truthy aliases) then ret 0
    else
      items <- lift (iterate aliases) ;;
      points <- index_aliases mid items [] ;;
      (match points with
       | [] => ret tt
       | _ :: _ => upsert COLLECTION_NAME points
       end) ;;
      ret (Z.of_nat (length points)).

(** [fetch_music_ids()]. *)
Definition fetch_music_ids : M (list json) :=
  print (LogFetching MUSICS_JSON_URL) ;;
  resp <- http_get MUSICS_JSON_URL ;;
  if negb (status_code resp =? 200) then
    print (LogFetchFailed (status_code resp)) ;;
    ret []
  else
    try_except
      (musics <- lift (resp_json resp) ;;
       items <- lift (iterate musics) ;;
       ids <- lift (collect_ids items) ;;
       lift (list_sort R ids))
      (fun e => print (LogParseError e) ;; ret []).

(** One turn of the [for i in ids] loop of [main]: the [try] block and
    its handler, from the running [total] to the new one. *)
Definition main_step (i : json) (total : Z) : M Z :=
  try_except
    (count <- index_song i ;;
     if 0 <? count then
       print (LogIndexed i count) ;;
       ret (total + count)
     else ret total)
    (fun e => print (LogIndexError i e) ;; ret total).

Fixpoint main_loop (ids : list json) (total : Z) : M Z :=
  match ids with
  | [] => ret total
  | i :: rest =>
      total' <- main_step i total ;;
      main_loop rest total'
  end.

(** [main()]. *)
Definition main : M unit :=
  ids <- fetch_music_ids ;;
  print (LogFound (Z.of_nat (length ids))) ;;
  total <- main_loop ids 0 ;;
  print (LogComplete total).

End Script.

(* ------------------------------------------------------------------ *)
(** ** Concrete runtimes and worlds, used to run the script *)

(** The [input] field of an embedding request. *)
Definition input_of (payload : json) : json :=
  match payload with
  | JObj fields =>
      match lookup (lit "input") fields with Some v => v | None => JNull end
  | _ => JNull
  end.

Module Demo.

(** The binary64 value [0.5]. *)
Definition half : spec_float := S754_finite false 4503599627370496 (-53).

Definition is_float (v : json) : bool :=
  match v with JFloat _ => true | _ => false end.

(** [float(n)] of an integer, rounded to the nearest binary64. *)
Definition float_of_int (n : Z) : spec_float :=
  binary_normalize 53 1024 n 0 false.

Definition is_number (v : json) : bool :=
  match v with JFloat _ | JInt _ => true | _ => false end.

Definition as_float (v : json) : json :=
  match v with JInt n => JFloat (float_of_int n) | _ => v end.

(** A runtime whose [PointStruct] takes a list of numbers as a vector
    and stores its integers as floats. *)
Definition runtime : Runtime := {|
  py_repr := fun _ => lit "<repr>";
  sort_other := fun _ => Raise TypeError;
  validate_vector := fun v =>
    match v with
    | JArr items =>
        if forallb is_number items then Some (JArr (map as_float items))
        else None
    | _ => None
    end
|}.

Definition key : str := lit "sk-test".

Definition alias_url (mid : Z) : str :=
  HARUKI_API_BASE ++ lit "/" ++ str_of_int mid.

Definition ok_json (j : json) : result response :=
  Ok (Response 200 (lit "") (Some j)).

Definition embedding_reply (vec : list json) : result response :=
  ok_json (JObj [ (lit "data", JArr [ JObj [ (lit "embedding", JArr vec) ] ]) ]).

(** The track list: ids 99 and 7, and an item without [id]. *)
Definition musics : list json :=
  [ JObj [ (lit "id", JInt 99) ];
    JObj [ (lit "title", JStr (lit "untitled")) ];
    JObj [ (lit "id", JInt 7); (lit "title", JStr (lit "TYW")) ] ].

Definition resp_musics : response :=
  Response 200 (lit "") (Some (JArr musics)).

(** Track 7 has the aliases "Tell Your World" and "TYW", track 99 is
    unknown, every text embeds into a vector of [dim] floats. *)
Definition world (dim : nat) : World := {|
  requests_get := fun _ url =>
    if str_eqb url MUSICS_JSON_URL then Ok resp_musics
    else if str_eqb url (alias_url 7) then
      ok_json (JObj [ (lit "aliases",
                       JArr [ JStr (lit "Tell Your World"); JStr (lit "TYW") ]) ])
    else Ok (Response 404 (lit "not found") None);
  requests_post := fun _ _ _ _ => embedding_reply (repeat (JFloat half) dim);
  client_collection_exists := fun h _ =>
    Ok (existsb (fun ev => match ev with EvCreate _ _ _ (Ok _) => true | _ => false end) h);
  client_create_collection := fun _ _ _ _ => Ok tt;
  client_upsert := fun _ _ _ => Ok tt
|}.

(** As [world], but the embedding service answers the text "Tell Your
    World" with [reply]. *)
Definition world_with_reply (reply : result response) : World := {|
  requests_get := requests_get (world 2);
  requests_post := fun _ _ payload _ =>
    match input_of payload with
    | JStr s => if str_eqb s (lit "Tell Your World") then reply
                else embedding_reply [JFloat half; JFloat half]
    | _ => embedding_reply [JFloat half; JFloat half]
    end;
  client_collection_exists := client_collection_exists (world 2);
  client_create_collection := client_create_collection (world 2);
  client_upsert := client_upsert (world 2)
|}.

(** The pieces of a run of [index_song] on track 7 in [world 2]. *)
Definition tell_your_world : json := JStr (lit "Tell Your World").
Definition tyw : json := JStr (lit "TYW").
Definition vec2 : json := JArr [JFloat half; JFloat half].

Definition fields_7 : list (str * json) :=
  [ (lit "aliases", JArr [tell_your_world; tyw]) ].

Definition resp_7 : response := Response 200 (lit "") (Some (JObj fields_7)).

Definition resp_99 : response := Response 404 (lit "not found") None.

Definition id_of (alias : json) : str :=
  match generate_uuid runtime (JInt 7) alias with
  | Ok u => u
  | Raise _ => []
  end.

Definition key_bytes (alias : json) : list Z :=
  match utf8_encode (raw_key runtime (JInt 7) alias) with
  | Some bytes => bytes
  | None => []
  end.

Definition points_7 : list point :=
  [ Point (id_of tell_your_world) vec2 (alias_payload (JInt 7) tell_your_world);
    Point (id_of tyw) vec2 (alias_payload (JInt 7) tyw) ].

(** Answers of the embedding service that are not the expected shape:
    a null embedding, and a first element without [embedding]. *)
Definition null_embedding : response :=
  Response 200 (lit "")
    (Some (JObj [ (lit "data", JArr [ JObj [ (lit "embedding", JNull) ] ]) ])).

Definition no_embedding_key : response :=
  Response 200 (lit "") (Some (JObj [ (lit "data", JArr [ JObj [] ]) ])).


(** The trace once track 7 has been fetched. *)
Definition fetched_7 : trace := [EvGet (alias_url 7) (Ok resp_7)].

End Demo.

(* ------------------------------------------------------------------ *)
(** ** Observations on traces *)

(** The batches handed to [client.upsert], with the outcome of each call. *)
Fixpoint upserts (t : trace) : list (list point * result unit) :=
  match t with
  | [] => []
  | EvUpsert _ pts r :: t' => (pts, r) :: upserts t'
  | _ :: t' => upserts t'
  end.

(** The number of points written by the upsert calls that returned. *)
Fixpoint upserted (t : trace) : Z :=
  match t with
  | [] => 0
  | EvUpsert _ pts (Ok _) :: t' => Z.of_nat (length pts) + upserted t'
  | _ :: t' => upserted t'
  end.

(** The [create_collection] calls of a trace. *)
Fixpoint creations (t : trace) : list (str * Z * distance) :=
  match t with
  | [] => []
  | EvCreate name size dist _ :: t' => (name, size, dist) :: creations t'
  | _ :: t' => creations t'
  end.

(** The [id] fields present in a list of objects, in document order;
    an item without [id] gives nothing. *)
Definition id_fields (items : list json) : list json :=
  flat_map (fun item =>
              match item with
              | JObj fields =>
                  match lookup (lit "id") fields with
                  | Some v => [v]
                  | None => []
                  end
              | _ => []
              end) items.

Definition is_object (v : json) : bool :=
  match v with JObj _ => true | _ => false end.

(** The [try] block of [fetch_music_ids], on the response it reads. *)
Definition parse_ids (R : Runtime) (resp : response) : result (list json) :=
  match resp_json resp with
  | Raise e => Raise e
  | Ok musics =>
      match iterate musics with
      | Raise e => Raise e
      | Ok items =>
          match collect_ids items with
          | Raise e => Raise e
          | Ok ids => list_sort R ids
          end
      end
  end.

(** The URLs fetched with [requests.get], in order. *)
Fixpoint gets (t : trace) : list str :=
  match t with
  | [] => []
  | EvGet url _ :: t' => url :: gets t'
  | _ :: t' => gets t'
  end.

(** The texts sent to the embedding service, in order. *)
Fixpoint posts (t : trace) : list json :=
  match t with
  | [] => []
  | EvPost _ payload _ _ :: t' => input_of payload :: posts t'
  | _ :: t' => posts t'
  end.

(** A store that remembers: once a creation call has returned, the
    collection is reported present. *)
Definition store_persists (W : World) : Prop :=
  forall h name size dist,
    In (EvCreate name size dist (Ok tt)) h ->
    client_collection_exists W h name = Ok true.

Definition sum (l : list Z) : Z := fold_right Z.add 0 l.

Section Observations.
Variable R : Runtime.
Variable W : World.
Variable key : str.

(** The tracks [main_loop] goes through, each with the events of its
    [index_song] call. *)
Fixpoint track_runs (ids : list json) (h : trace) : list (json * trace) :=
  match ids with
  | [] => []
  | i :: rest =>
      (i, snd (index_song R W key i h))
        :: track_runs rest (h ++ snd (main_step R W key i 0 h))
  end.

(** The [embedding] of the first element of [data] in a response. *)
Definition embedding_of (resp : response) : option json :=
  match body resp with
  | Some (JObj fields) =>
      match lookup (lit "data") fields with
      | Some (JArr (JObj first :: _)) => lookup (lit "embedding") first
      | _ => None
      end
  | _ => None
  end.

(** Where a point of track [mid] comes from, in a trace [t]: an alias
    whose embedding request, recorded in [t], was answered with status
    200 and a truthy first [embedding] [v]; the point's vector is what
    [PointStruct] validation stored for [v], its id and payload are
    those of the alias. *)
Definition point_source (mid : json) (t : trace) (p : point) : Prop :=
  exists alias h resp v,
    In (post_event W key h alias) t /\
    post_answer W key h alias = Ok resp /\
    status_code resp = 200 /\
    embedding_of resp = Some v /\
    truthy v = true /\
    validate_vector R v = Some (point_vector p) /\
    generate_uuid R mid alias = Ok (point_id p) /\
    point_payload p = alias_payload mid alias.

(** The outcomes of [index_song], by what it did with the store. *)
Inductive song_outcome (mid : json) (h : trace) : result Z -> trace -> Prop :=
| NothingIndexed t :
    upserts t = [] ->
    song_outcome mid h (Ok 0) t
| Aborted e t :
    upserts t = [] ->
    song_outcome mid h (Raise e) t
| Upserted t pts u :
    upserts t = [] ->
    pts <> [] ->
    Forall (point_source mid t) pts ->
    u = client_upsert W (h ++ t) COLLECTION_NAME pts ->
    song_outcome mid h
      (match u with
       | Ok _ => Ok (Z.of_nat (length pts))
       | Raise e => Raise e
       end)
      (t ++ [EvUpsert COLLECTION_NAME pts u]).

(** What [index_song] reads in a 200 response: the aliases to loop
    over, [None] when there is nothing to index. *)
Definition track_aliases (resp : response) : result (option (list json)) :=
  match body resp with
  | None => Raise JSONDecodeError
  | Some (JObj fields) =>
      let aliases :=
        match lookup (lit "aliases") fields with
        | Some a => a
        | None => JArr []
        end in
      if truthy aliases then
        match iterate aliases with
        | Ok items => Ok (Some items)
        | Raise e => Raise e
        end
      else Ok None
  | Some _ => Raise AttributeError
  end.

(** What [get_embedding] makes of a 200 response, once it is there. *)
Definition read_embedding (resp : response) : result json :=
  match body resp with
  | None => Raise JSONDecodeError
  | Some (JObj fields) =>
      match lookup (lit "data") fields with
      | None => Ok JNull
      | Some d =>
          if truthy d then
            match getitem_0 d with
            | Ok first => getitem_key first (lit "embedding")
            | Raise e => Raise e
            end
          else Ok JNull
      end
  | Some _ => Raise AttributeError
  end.

(** "The 200 response body has an empty or absent [data] list". *)
Definition data_empty_or_absent (resp : response) : Prop :=
  match body resp with
  | Some (JObj fields) =>
      match lookup (lit "data") fields with
      | None | Some (JArr []) => True
      | Some _ => False
      end
  | _ => False
  end.

(** [data] is missing or fails the truth test of [get_embedding]. *)
Definition data_falsy (resp : response) : Prop :=
  exists fields,
    body resp = Some (JObj fields) /\
    match lookup (lit "data") fields with
    | None => True
    | Some d => truthy d = false
    end.

End Observations.


(* ------------------------------------------------------------------ *)
(** ** Statements that the script does not satisfy, as they are worded *)

(** "[get_embedding] returns [None] if and only if the status is not
    200 or the 200 body has an empty or absent [data] list." *)
Definition none_iff_bad_status_or_no_data (W : World) (key : str) : Prop :=
  forall h txt resp,
    post_answer W key h txt = Ok resp ->
    (fst (get_embedding W key txt h) = Ok JNull <->
     status_code resp <> 200 \/
     (status_code resp = 200 /\ data_empty_or_absent resp)).


(** "Every vector submitted to upsert is a sequence of exactly 1024
    numbers, whatever the embedding service returns." *)
Definition vectors_have_dimension (R : Runtime) (W : World) (key : str)
    : Prop :=
  forall mid h name pts u p,
    In (EvUpsert name pts u) (snd (index_song R W key mid h)) ->
    In p pts ->
    exists items,
      point_vector p = JArr items /\ Z.of_nat (length items) = VECTOR_SIZE.

(** "Distinct alias strings of one track get distinct ids." *)
Definition ids_never_collide (R : Runtime) : Prop :=
  forall (mid : json) (alias1 alias2 : str),
    alias1 <> alias2 ->
    generate_uuid R mid (JStr alias1) <> generate_uuid R mid (JStr alias2).

(** The 128-bit number behind the id of [(mid, alias)]. *)
Definition id_number (R : Runtime) (mid alias : json) : Z :=
  match utf8_encode (raw_key R mid alias) with
  | Some bytes => fold_left (fun a x => a * 256 + x) (MD5.digest bytes) 0
  | None => 0
  end.

(** The alias of [k] letters that spells [n] in binary, lowest bit
    first, with "a" for 0 and "b" for 1. *)
Fixpoint word (k : nat) (n : Z) : str :=
  match k with
  | O => []
  | S k' => (if Z.odd n then 98%N else 97%N) :: word k' (n / 2)
  end.

(** "a" or "b". *)
Definition a_or_b (c : N) : Prop := c = 97%N \/ c = 98%N.

(** "The ids processed are the ascending sort of the [id] fields
    present in the fetched track list": at the least, when the list is
    fetched with status 200 and parses into a list of objects, every
    [id] field present is among the ids returned, once per occurrence. *)
Definition id_fields_all_processed (R : Runtime) (W : World) : Prop :=
  forall h resp items,
    requests_get W (h ++ [EvPrint (LogFetching MUSICS_JSON_URL)])
      MUSICS_JSON_URL = Ok resp ->
    status_code resp = 200 ->
    body resp = Some (JArr items) ->
    forallb is_object items = true ->
    exists ids,
      fst (fetch_music_ids R W h) = Ok ids /\
      Permutation (id_fields items) ids.

(** Ascending order of strings. *)
Definition str_le (a b : str) : Prop := str_leb a b = true.

(* ------------------------------------------------------------------ *)
(** ** Reading back what the script writes

    Inverse readings of the texts the script builds: decimal numerals,
    UTF-8 bytes, and the shape of an id. *)

Definition is_digit (c : N) : bool :=
  let z := Z.of_N c in (48 <=? z) && (z <=? 57).

Definition decimal_value (s : str) : Z :=
  fold_left (fun acc c => acc * 10 + (Z.of_N c - 48)) s 0.

(** [int(s)] on a plain decimal numeral: an optional minus sign and at
    least one ASCII digit. *)
Definition int_of_decimal (s : str) : option Z :=
  match s with
  | [] => None
  | c :: rest =>
      if N.eqb c 45 then
        match rest with
        | [] => None
        | _ :: _ =>
            if forallb is_digit rest then Some (- decimal_value rest) else None
        end
      else if forallb is_digit s then Some (decimal_value s) else None
  end.

(** One code point off the front of a UTF-8 byte sequence. *)
Definition utf8_decode_char (bs : list Z) : option (N * list Z) :=
  match bs with
  | [] => None
  | b0 :: t =>
      if b0 <? 0x80 then Some (Z.to_N b0, t)
      else if b0 <? 0xC0 then None
      else if b0 <? 0xE0 then
        match t with
        | b1 :: t' =>
            Some (Z.to_N (Z.lor (Z.shiftl (Z.land b0 0x1F) 6) (Z.land b1 0x3F)),
                  t')
        | _ => None
        end
      else if b0 <? 0xF0 then
        match t with
        | b1 :: b2 :: t' =>
            Some (Z.to_N (Z.lor (Z.shiftl (Z.land b0 0x0F) 12)
                            (Z.lor (Z.shiftl (Z.land b1 0x3F) 6)
                               (Z.land b2 0x3F))),
                  t')
        | _ => None
        end
      else
        match t with
        | b1 :: b2 :: b3 :: t' =>
            Some (Z.to_N (Z.lor (Z.shiftl (Z.land b0 0x07) 18)
                            (Z.lor (Z.shiftl (Z.land b1 0x3F) 12)
                               (Z.lor (Z.shiftl (Z.land b2 0x3F) 6)
                                  (Z.land b3 0x3F)))),
                  t')
        | _ => None
        end
  end.

(** [bs.decode('utf-8')], lenient on continuation bytes; [fuel] bounds
    the number of code points. *)
Fixpoint utf8_decode (fuel : nat) (bs : list Z) : option str :=
  match bs with
  | [] => Some []
  | _ :: _ =>
      match fuel with
      | O => None
      | S fuel' =>
          match utf8_decode_char bs with
          | Some (c, rest) => option_map (cons c) (utf8_decode fuel' rest)
          | None => None
          end
      end
  end.

Definition is_lower_hex (c : N) : bool :=
  let z := Z.of_N c in
  ((48 <=? z) && (z <=? 57)) || ((97 <=? z) && (z <=? 102)).

(** The 8-4-4-4-12 shape: 36 characters, hyphens at 8, 13, 18 and 23,
    lower-case hex digits elsewhere. *)
Definition uuid_shaped (u : str) : bool :=
  (length u =? 36)%nat &&
  forallb is_lower_hex (UUID.slice 0 8 u) && N.eqb (nth 8 u 0%N) 45 &&
  forallb is_lower_hex (UUID.slice 9 13 u) && N.eqb (nth 13 u 0%N) 45 &&
  forallb is_lower_hex (UUID.slice 14 18 u) && N.eqb (nth 18 u 0%N) 45 &&
  forallb is_lower_hex (UUID.slice 19 23 u) && N.eqb (nth 23 u 0%N) 45 &&
  forallb is_lower_hex (skipn 24 u).

(** [k] is [l] with some elements left out. *)
Inductive subsequence {A : Type} : list A -> list A -> Prop :=
| sub_nil l : subsequence [] l
| sub_keep x k l : subsequence k l -> subsequence (x :: k) (x :: l)
| sub_skip x k l : subsequence k l -> subsequence k (x :: l).

(** An item of the track list on which the comprehension of
    [fetch_music_ids] raises: a null, a boolean or a number (["id" in
    item] raises), or a string or list in which ["id"] is found
    ([item["id"]] raises). *)
Definition breaks_comprehension (item : json) : bool :=
  match item with
  | JNull | JBool _ | JInt _ | JFloat _ => true
  | JStr s => contains s (lit "id")
  | JArr items =>
      existsb (fun x => match x with
                        | JStr s => str_eqb s (lit "id")
                        | _ => false
                        end) items
  | JObj _ => false
  end.

(* ------------------------------------------------------------------ *)
(** ** Start of the script (lines 17-43) and the whole program *)

(** [os.environ]. *)
Definition environ := str -> option str.

(** The two console lines of the start-up code. *)
Inductive startup_line :=
| WarnInvalidPort (port_str : str)
| ErrorMissingEnv.

(** The arguments handed to [QdrantClient]. *)
Record client_args := ClientArgs {
  arg_url : str;
  arg_port : option Z;
  arg_api_key : option str
}.

Inductive startup_result :=
| Exit (code : Z)
| Client (args : client_args).

(** [not v] for a value of [os.getenv]: unset or empty. *)
Definition env_missing (v : option str) : bool :=
  match v with
  | Some (_ :: _) => false
  | _ => true
  end.

(** Lines 39-41: the scheme added to a Zeabur host. *)
Definition client_url (host : str) : str :=
  if contains host (lit "zeabur.app") && negb (starts_with (lit "http") host)
  then lit "https://" ++ host
  else host.

Section Startup.
(** [int(s)] on a string, [None] for [ValueError]; Python reads more
    than plain ASCII numerals (blanks, underscores, other scripts'
    digits), so the function is taken as it is. *)
Variable py_int : str -> option Z.

(** Lines 22-31: [QDRANT_PORT]. *)
Definition qdrant_port (env : environ) : option Z * list startup_line :=
  let port_str :=
    match env (lit "QDRANT_PORT") with
    | Some s => s
    | None => []
    end in
  match port_str with
  | [] => (None, [])
  | _ :: _ =>
      match py_int port_str with
      | Some n => (Some n, [])
      | None => (None, [WarnInvalidPort port_str])
      end
  end.

(** Lines 18-43, up to the arguments of the client. *)
Definition startup (env : environ) : startup_result * list startup_line :=
  let SILICONFLOW_KEY := env (lit "SILICONFLOW_API_KEY") in
  let QDRANT_HOST := env (lit "QDRANT_HOST") in
  let QDRANT_KEY := env (lit "QDRANT_API_KEY") in
  let '(QDRANT_PORT, lines) := qdrant_port env in
  if env_missing SILICONFLOW_KEY || env_missing QDRANT_HOST then
    (Exit 1, lines ++ [ErrorMissingEnv])
  else
    match QDRANT_HOST with
    | Some host =>
        (Client (ClientArgs (client_url host) QDRANT_PORT QDRANT_KEY), lines)
    | None => (Exit 1, lines ++ [ErrorMissingEnv])
    end.

End Startup.

(** What follows the start-up when the module is run: the collection
    bootstrap, then [main()]. *)
Definition script (R : Runtime) (W : World) (key : str) : M unit :=
  ensure_collection W ;; main R W key.

(** How the process ends. *)
Inductive ending :=
| ExitCode (code : Z)
| Uncaught (e : exn).

(** The whole program: its ending, its start-up lines and its trace.
    The constructor of the client is taken to return. *)
Definition program (py_int : str -> option Z) (R : Runtime) (W : World)
    (env : environ) : ending * list startup_line * trace :=
  match startup py_int env with
  | (Exit code, lines) => (ExitCode code, lines, [])
  | (Client _, lines) =>
      let key :=
        match env (lit "SILICONFLOW_API_KEY") with
        | Some k => k
        | None => []
        end in
      match script R W key [] with
      | (Ok _, t) => (ExitCode 0, lines, t)
      | (Raise e, t) => (Uncaught e, lines, t)
      end
  end.

(* ------------------------------------------------------------------ *)
(** ** More concrete worlds *)

Module Demo2.

(** As [Demo.world 2], with [requests.get] answered by [get]. *)
Definition world_with_get (get : str -> result response) : World := {|
  requests_get := fun _ url => get url;
  requests_post := requests_post (Demo.world 2);
  client_collection_exists := client_collection_exists (Demo.world 2);
  client_create_collection := client_create_collection (Demo.world 2);
  client_upsert := client_upsert (Demo.world 2)
|}.

(** A store that cannot be reached. *)
Definition world_down : World := {|
  requests_get := requests_get (Demo.world 2);
  requests_post := requests_post (Demo.world 2);
  client_collection_exists := fun _ _ => Raise (LibraryError 503);
  client_create_collection := client_create_collection (Demo.world 2);
  client_upsert := client_upsert (Demo.world 2)
|}.

Definition unavailable : response :=
  Response 503 (lit "unavailable") None.

Definition no_aliases : response :=
  Response 200 (lit "") (Some (JObj [ (lit "title", JStr (lit "TYW")) ])).

(** A track list with a null among its items. *)
Definition musics_with_null : list json :=
  [ JObj [ (lit "id", JInt 7) ]; JNull ].

Definition resp_with_null : response :=
  Response 200 (lit "") (Some (JArr musics_with_null)).

(** A track list whose ids are an integer and a string. *)
Definition musics_mixed : list json :=
  [ JObj [ (lit "id", JInt 7) ]; JObj [ (lit "id", JStr (lit "a")) ] ].

Definition resp_mixed : response :=
  Response 200 (lit "") (Some (JArr musics_mixed)).

(** A track list with string ids. *)
Definition musics_str : list json :=
  [ JObj [ (lit "id", JStr (lit "b")) ];
    JObj [ (lit "title", JStr (lit "untitled")) ];
    JObj [ (lit "id", JStr (lit "a")) ];
    JObj [ (lit "id", JStr (lit "B")) ];
    JObj [ (lit "id", JStr (lit "ab")) ] ].

Definition resp_str : response :=
  Response 200 (lit "") (Some (JArr musics_str)).

(** An environment with the two mandatory variables, and an empty one. *)
Definition env_full : environ :=
  fun name =>
    if str_eqb name (lit "SILICONFLOW_API_KEY") then Some Demo.key
    else if str_eqb name (lit "QDRANT_HOST") then
      Some (lit "qdrant.example.zeabur.app")
    else if str_eqb name (lit "QDRANT_PORT") then Some (lit "6333")
    else None.

Definition env_empty : environ := fun _ => None.

End Demo2.
(* ------------------------------------------------------------------ *)
(** * Properties *)

(** ** Traces *)

Lemma upserts_app t1 t2 : upserts (t1 ++ t2) = upserts t1 ++ upserts t2.
Proof.
  induction t1 as [|ev t1 IH]; simpl; [reflexivity|].
  destruct ev; simpl; rewrite ?IH; reflexivity.
Qed.

Lemma upserted_app t1 t2 : upserted (t1 ++ t2) = upserted t1 + upserted t2.
Proof.
  induction t1 as [|ev t1 IH]; simpl; [reflexivity|].
  destruct ev as [| | | |name pts [u|e]|]; simpl; rewrite ?IH; lia.
Qed.

Lemma gets_app t1 t2 : gets (t1 ++ t2) = gets t1 ++ gets t2.
Proof.
  induction t1 as [|ev t1 IH]; simpl; [reflexivity|].
  destruct ev; simpl; rewrite ?IH; reflexivity.
Qed.

Lemma posts_app t1 t2 : posts (t1 ++ t2) = posts t1 ++ posts t2.
Proof.
  induction t1 as [|ev t1 IH]; simpl; [reflexivity|].
  destruct ev; simpl; rewrite ?IH; reflexivity.
Qed.

Lemma creations_app t1 t2 :
  creations (t1 ++ t2) = creations t1 ++ creations t2.
Proof.
  induction t1 as [|ev t1 IH]; simpl; [reflexivity|].
  destruct ev; simpl; rewrite ?IH; reflexivity.
Qed.

(** ** Running the monad *)

Lemma bind_ok {A B} (m : M A) (k : A -> M B) h a t :
  m h = (Ok a, t) ->
  bind m k h = (fst (k a (h ++ t)), t ++ snd (k a (h ++ t))).
Proof.
  intros E. unfold bind. rewrite E. destruct (k a (h ++ t)); reflexivity.
Qed.

Lemma bind_raise {A B} (m : M A) (k : A -> M B) h e t :
  m h = (Raise e, t) -> bind m k h = (Raise e, t).
Proof. intros E. unfold bind. rewrite E. reflexivity. Qed.

Lemma bind_lift_ok {A B} (a : A) (k : A -> M B) h :
  bind (lift (Ok a)) k h = k a h.
Proof.
  unfold bind, lift. rewrite app_nil_r. destruct (k a h); reflexivity.
Qed.

Lemma bind_lift_raise {A B} e (k : A -> M B) h :
  bind (lift (Raise e)) k h = (Raise e, []).
Proof. reflexivity. Qed.

Lemma pair_eta {A B} (p : A * B) : p = (fst p, snd p).
Proof. destruct p; reflexivity. Qed.

Ltac case_match :=
  match goal with
  | |- context [match ?x with _ => _ end] => destruct x eqn:?
  end.

(** ** Identifiers *)

Section Identity.

Lemma le_bytes_octets n x : Forall UUID.octet (MD5.le_bytes n x).
Proof.
  unfold MD5.le_bytes. apply Forall_forall. intros b I.
  apply in_map_iff in I. destruct I as (i & <- & _).
  apply Z.mod_pos_bound. lia.
Qed.

Lemma digest_octets msg : Forall UUID.octet (MD5.digest msg).
Proof.
  unfold MD5.digest. repeat (apply Forall_app; split); apply le_bytes_octets.
Qed.

Lemma digest_length msg : length (MD5.digest msg) = 16%nat.
Proof. reflexivity. Qed.

Lemma hex_val_hex_char d :
  0 <= d < 16 -> UUID.hex_val (MD5.hex_char d) = Some d.
Proof.
  intros H.
  assert (C : d = 0 \/ d = 1 \/ d = 2 \/ d = 3 \/ d = 4 \/ d = 5 \/ d = 6 \/
              d = 7 \/ d = 8 \/ d = 9 \/ d = 10 \/ d = 11 \/ d = 12 \/
              d = 13 \/ d = 14 \/ d = 15) by lia.
  repeat (destruct C as [->|C]; [reflexivity|]). subst d. reflexivity.
Qed.

Lemma int_of_hex_byte acc b rest :
  UUID.octet b ->
  UUID.int_of_hex acc (MD5.hex_byte b ++ rest) =
    UUID.int_of_hex (acc * 256 + b) rest.
Proof.
  intros [Lo Hi]. unfold MD5.hex_byte. simpl.
  rewrite !hex_val_hex_char.
  - f_equal. pose proof (Z.div_mod b 16). lia.
  - apply Z.mod_pos_bound; lia.
  - split; [apply Z.div_pos; lia|apply Z.div_lt_upper_bound; lia].
Qed.

Lemma int_of_hex_octets b : forall acc,
  Forall UUID.octet b ->
  UUID.int_of_hex acc (UUID.hex_of b) =
    Some (fold_left (fun a x => a * 256 + x) b acc).
Proof.
  induction b as [|x b IH]; intros acc F; [reflexivity|].
  inversion F; subst. unfold UUID.hex_of. cbn [flat_map].
  rewrite int_of_hex_byte by assumption. apply IH. assumption.
Qed.

Lemma hex_of_length b : length (UUID.hex_of b) = (2 * length b)%nat.
Proof.
  induction b as [|x b IH]; [reflexivity|].
  unfold UUID.hex_of in *. cbn [flat_map MD5.hex_byte app length].
  rewrite IH. lia.
Qed.

(** Reading the hex digest as a number is reading the octets
    big-endian, as [uuid.UUID(bytes=...)] does. *)
Lemma of_hex_of_bytes b :
  Forall UUID.octet b ->
  length b = 16%nat ->
  UUID.of_hex (UUID.hex_of b) = UUID.of_bytes b.
Proof.
  intros F L. unfold UUID.of_hex, UUID.of_bytes.
  rewrite hex_of_length, L. simpl.
  apply int_of_hex_octets, F.
Qed.

(** Printing the number gives the hex digits back. *)
Lemma hex_digits_octets b : forall acc,
  Forall UUID.octet b ->
  UUID.hex_digits (2 * length b) (fold_left (fun a x => a * 256 + x) b acc) =
    UUID.hex_of b.
Proof.
  induction b as [|x b IH] using rev_ind; intros acc F; [reflexivity|].
  apply Forall_app in F. destruct F as [Fb Fx].
  inversion Fx as [|? ? [Lo Hi] _]; subst.
  rewrite fold_left_app, length_app. cbn [fold_left length].
  replace (2 * (length b + 1))%nat with (S (S (2 * length b))) by lia.
  cbn [UUID.hex_digits].
  set (n := fold_left (fun a y => a * 256 + y) b acc).
  assert (D : (n * 256 + x) / 16 = n * 16 + x / 16).
  { replace (n * 256 + x) with (x + (n * 16) * 16) by lia.
    rewrite Z.div_add by lia. lia. }
  assert (D2 : (n * 16 + x / 16) / 16 = n).
  { replace (n * 16 + x / 16) with (x / 16 + n * 16) by lia.
    rewrite Z.div_add by lia.
    rewrite (Z.div_small (x / 16)); [lia|].
    split; [apply Z.div_pos; lia|apply Z.div_lt_upper_bound; lia]. }
  assert (M1 : (n * 16 + x / 16) mod 16 = x / 16).
  { replace (n * 16 + x / 16) with (x / 16 + n * 16) by lia.
    rewrite Z.mod_add by lia. apply Z.mod_small.
    split; [apply Z.div_pos; lia|apply Z.div_lt_upper_bound; lia]. }
  assert (M2 : (n * 256 + x) mod 16 = x mod 16).
  { replace (n * 256 + x) with (x + (n * 16) * 16) by lia.
    apply Z.mod_add. lia. }
  rewrite D, D2, M1, M2. unfold n. rewrite (IH acc Fb).
  unfold UUID.hex_of. rewrite flat_map_app. cbn [flat_map MD5.hex_byte].
  rewrite app_nil_r, <- app_assoc. reflexivity.
Qed.

(** The text of a UUID made of sixteen octets is their hex, hyphenated
    8-4-4-4-12. *)
Lemma to_str_of_bytes b u :
  Forall UUID.octet b ->
  UUID.of_bytes b = Some u ->
  UUID.to_str u = UUID.canonical b /\ length (UUID.to_str u) = 36%nat.
Proof.
  intros F. unfold UUID.of_bytes.
  destruct (Nat.eqb_spec (length b) 16) as [L|]; [|discriminate].
  intros [= <-]. unfold UUID.to_str.
  change 32%nat with (2 * 16)%nat. rewrite <- L, (hex_digits_octets b 0 F).
  do 16 (destruct b as [|? b]; [discriminate|]).
  destruct b; [|discriminate].
  split; reflexivity.
Qed.

Lemma utf8_char_scalar c :
  scalar c = true -> exists bs, utf8_char c = Some bs.
Proof.
  unfold scalar, utf8_char. intros H.
  apply andb_prop in H. destruct H as [Hi Su].
  apply negb_true_iff in Su. rewrite Su, Hi.
  destruct (Z.of_N c <? 128); [eauto|].
  destruct (Z.of_N c <? 2048); [eauto|].
  destruct (Z.of_N c <? 65536); eauto.
Qed.

Lemma utf8_encode_well_formed s :
  well_formed s = true -> exists bs, utf8_encode s = Some bs.
Proof.
  induction s as [|c s IH]; simpl; [eauto|].
  intros H. apply andb_prop in H. destruct H as [Hc Hs].
  destruct (utf8_char_scalar c Hc) as (bs & ->).
  destruct (IH Hs) as (more & ->). eauto.
Qed.

Variable R : Runtime.

Lemma generate_uuid_digest mid alias bytes :
  utf8_encode (raw_key R mid alias) = Some bytes ->
  generate_uuid R mid alias = Ok (UUID.canonical (MD5.digest bytes)) /\
  generate_uuid_spec R mid alias = Ok (UUID.canonical (MD5.digest bytes)) /\
  length (UUID.canonical (MD5.digest bytes)) = 36%nat.
Proof.
  intros E. unfold generate_uuid, generate_uuid_spec.
  fold (raw_key R mid alias). rewrite E.
  change (MD5.hexdigest bytes) with (UUID.hex_of (MD5.digest bytes)).
  rewrite (of_hex_of_bytes _ (digest_octets bytes) (digest_length bytes)).
  destruct (UUID.of_bytes (MD5.digest bytes)) as [u|] eqn:B;
    [|discriminate B].
  destruct (to_str_of_bytes _ _ (digest_octets bytes) B) as [T L].
  rewrite <- T. auto.
Qed.

(** C1. [generate_uuid] is the function the specification words: the
    MD5 digest of the UTF-8 bytes of ["{mid}-{alias}"], its sixteen
    octets read as a UUID and printed in canonical form (the hex of the
    octets, hyphenated 8-4-4-4-12, 36 characters).  It depends on
    nothing but its two arguments, so equal arguments give equal ids,
    and it returns an id for every well-formed string. *)
Theorem generate_uuid_is_md5_uuid (mid alias : json) :
  generate_uuid R mid alias = generate_uuid_spec R mid alias /\
  (forall bytes,
     utf8_encode (raw_key R mid alias) = Some bytes ->
     generate_uuid R mid alias = Ok (UUID.canonical (MD5.digest bytes))) /\
  (well_formed (raw_key R mid alias) = true ->
   exists u, generate_uuid R mid alias = Ok u /\ length u = 36%nat) /\
  (forall mid' alias',
     mid' = mid -> alias' = alias ->
     generate_uuid R mid' alias' = generate_uuid R mid alias).
Proof.
  split; [|split; [|split]].
  - destruct (utf8_encode (raw_key R mid alias)) as [bytes|] eqn:E.
    + destruct (generate_uuid_digest mid alias bytes E) as (-> & -> & _).
      reflexivity.
    + unfold generate_uuid, generate_uuid_spec.
      fold (raw_key R mid alias). rewrite E. reflexivity.
  - intros bytes E. apply (generate_uuid_digest mid alias bytes E).
  - intros WF. destruct (utf8_encode_well_formed _ WF) as (bytes & E).
    destruct (generate_uuid_digest mid alias bytes E) as (G & _ & L). eauto.
  - intros mid' alias' -> ->. reflexivity.
Qed.

(** The id space is finite: an id is the text of a number below
    [2^128]. *)
Lemma octets_bound b : forall acc,
  Forall UUID.octet b ->
  0 <= acc ->
  0 <= fold_left (fun a x => a * 256 + x) b acc
    < (acc + 1) * 256 ^ Z.of_nat (length b).
Proof.
  induction b as [|x b IH]; intros acc F A.
  - simpl. lia.
  - inversion F as [|? ? [Lo Hi] Fb]; subst.
    cbn [fold_left length]. rewrite Nat2Z.inj_succ, Z.pow_succ_r by lia.
    specialize (IH (acc * 256 + x) Fb ltac:(lia)).
    assert (P : 0 < 256 ^ Z.of_nat (length b)) by (apply Z.pow_pos_nonneg; lia).
    nia.
Qed.

Lemma id_number_bound mid alias : 0 <= id_number R mid alias < 2 ^ 128.
Proof.
  unfold id_number.
  destruct (utf8_encode (raw_key R mid alias)) as [bytes|].
  - pose proof (octets_bound _ 0 (digest_octets bytes) ltac:(lia)) as B.
    rewrite digest_length in B. exact B.
  - split; [lia|reflexivity].
Qed.

Lemma generate_uuid_number mid alias bytes :
  utf8_encode (raw_key R mid alias) = Some bytes ->
  generate_uuid R mid alias = Ok (UUID.to_str (id_number R mid alias)).
Proof.
  intros E. unfold generate_uuid, id_number. rewrite E.
  change (MD5.hexdigest bytes) with (UUID.hex_of (MD5.digest bytes)).
  rewrite (of_hex_of_bytes _ (digest_octets bytes) (digest_length bytes)).
  reflexivity.
Qed.

Lemma hex_char_inj a b :
  0 <= a < 16 -> 0 <= b < 16 -> MD5.hex_char a = MD5.hex_char b -> a = b.
Proof.
  intros Ha Hb E. apply (f_equal UUID.hex_val) in E.
  rewrite !hex_val_hex_char in E by assumption. congruence.
Qed.

Lemma hex_byte_inj a b :
  UUID.octet a -> UUID.octet b -> MD5.hex_byte a = MD5.hex_byte b -> a = b.
Proof.
  intros [La Ha] [Lb Hb] E. unfold MD5.hex_byte in E.
  injection E as E1 E2.
  apply hex_char_inj in E1;
    [|split; [apply Z.div_pos; lia|apply Z.div_lt_upper_bound; lia]..].
  apply hex_char_inj in E2; [|apply Z.mod_pos_bound; lia..].
  pose proof (Z.div_mod a 16). pose proof (Z.div_mod b 16). lia.
Qed.

(** The canonical text loses nothing of the sixteen octets. *)
Lemma canonical_inj b1 b2 :
  Forall UUID.octet b1 -> Forall UUID.octet b2 ->
  length b1 = 16%nat -> length b2 = 16%nat ->
  UUID.canonical b1 = UUID.canonical b2 -> b1 = b2.
Proof.
  intros F1 F2 L1 L2 E.
  do 16 (destruct b1 as [|? b1]; [discriminate|]).
  destruct b1; [|discriminate].
  do 16 (destruct b2 as [|? b2]; [discriminate|]).
  destruct b2; [|discriminate].
  rewrite Forall_forall in F1, F2.
  unfold UUID.canonical, UUID.hex_of in E.
  cbn [firstn skipn flat_map app MD5.hex_byte] in E.
  change (lit "-") with [45%N] in E. cbn [app] in E.
  injection E; intros.
  repeat f_equal;
    (apply hex_byte_inj;
     [apply F1; simpl; tauto|apply F2; simpl; tauto|
      unfold MD5.hex_byte; congruence]).
Qed.

(** C2, as the code has it.  Two aliases of a track have the same id
    exactly when the MD5 digests of their two keys ["{mid}-{alias}"]
    are the same sixteen octets: the UUID text keeps the whole digest,
    so ids are as distinct as MD5 makes them, and no more. *)
Theorem ids_collide_iff_digests_collide (mid alias1 alias2 : json)
    (bytes1 bytes2 : list Z) :
  utf8_encode (raw_key R mid alias1) = Some bytes1 ->
  utf8_encode (raw_key R mid alias2) = Some bytes2 ->
  (generate_uuid R mid alias1 = generate_uuid R mid alias2 <->
   MD5.digest bytes1 = MD5.digest bytes2).
Proof.
  intros E1 E2.
  destruct (generate_uuid_digest mid alias1 bytes1 E1) as (-> & _ & _).
  destruct (generate_uuid_digest mid alias2 bytes2 E2) as (-> & _ & _).
  split.
  - intros E.
    apply canonical_inj;
      [apply digest_octets|apply digest_octets|reflexivity|reflexivity|
       congruence].
  - intros ->. reflexivity.
Qed.

End Identity.

(** ** Collection bootstrap *)

Section Bootstrap.
Variable W : World.

(** The bootstrap step by step: one existence check, then the creation
    when the answer is "absent". *)
Lemma ensure_collection_run (h : trace) :
  let r := client_collection_exists W h COLLECTION_NAME in
  let ev := EvExists COLLECTION_NAME r in
  ensure_collection W h =
    match r with
    | Ok false =>
        let line := EvPrint (LogCreating COLLECTION_NAME) in
        let c := client_create_collection W ((h ++ [ev]) ++ [line])
                   COLLECTION_NAME VECTOR_SIZE COSINE in
        (c, [ev; line; EvCreate COLLECTION_NAME VECTOR_SIZE COSINE c])
    | Ok true => (Ok tt, [ev])
    | Raise e => (Raise e, [ev])
    end.
Proof.
  unfold ensure_collection, bind, collection_exists, create_collection,
    print, ret.
  destruct (client_collection_exists W h COLLECTION_NAME) as [[|]|e];
    reflexivity.
Qed.

(** C8. [create_collection] is called exactly when [collection_exists]
    answers that the collection is absent, and then once, for
    [song_aliases] with dimension 1024 and cosine distance; when the
    collection is reported present (or the check raises) no creation
    call is made. *)
Theorem ensure_collection_creates_iff_absent (h : trace) :
  creations (snd (ensure_collection W h)) =
    match client_collection_exists W h COLLECTION_NAME with
    | Ok false => [(COLLECTION_NAME, 1024, COSINE)]
    | _ => []
    end.
Proof.
  rewrite ensure_collection_run.
  destruct (client_collection_exists W h COLLECTION_NAME) as [[|]|e];
    reflexivity.
Qed.

(** A second bootstrap after a successful one creates nothing. *)
Lemma ensure_collection_second_run (h : trace) :
  store_persists W ->
  fst (ensure_collection W h) = Ok tt ->
  creations (snd (ensure_collection W h)) <> [] ->
  forall h', creations
    (snd (ensure_collection W (h ++ snd (ensure_collection W h) ++ h'))) = [].
Proof.
  intros P Hok Hc h'.
  rewrite (ensure_collection_run (h ++ _)).
  rewrite ensure_collection_run in Hok, Hc |- *.
  destruct (client_collection_exists W h COLLECTION_NAME) as [[|]|e] eqn:E;
    cbv zeta in *; simpl in Hok, Hc; try congruence.
  simpl snd.
  rewrite (P _ COLLECTION_NAME VECTOR_SIZE COSINE); [reflexivity|].
  rewrite Hok. apply in_or_app; right. simpl. auto.
Qed.

End Bootstrap.


(** ** The embedding client *)

Section Embedding.
Variable W : World.
Variable key : str.

(** [get_embedding] makes one request and then only reads the answer. *)
Lemma get_embedding_run h txt :
  get_embedding W key txt h =
    match post_answer W key h txt with
    | Raise e => (Raise e, [post_event W key h txt])
    | Ok resp =>
        if status_code resp =? 200 then (read_embedding resp, [post_event W key h txt])
        else (Ok JNull,
              [post_event W key h txt; EvPrint (LogEmbeddingError (text resp))])
    end.
Proof.
  unfold post_event, post_answer, get_embedding, bind,
    http_post, lift, ret, print, read_embedding, resp_json, dict_get,
    getitem_key.
  destruct (requests_post W h _ _ _) as [resp|e]; simpl; [|reflexivity].
  destruct (status_code resp =? 200); simpl; [|reflexivity].
  destruct (body resp) as [[| | | | | |fields]|]; simpl; try reflexivity.
  destruct (lookup (lit "data") fields) as [d|]; simpl; [|reflexivity].
  destruct (truthy d); simpl; [|reflexivity].
  destruct (getitem_0 d) as [first|e]; simpl; [|reflexivity].
  destruct first; reflexivity.
Qed.

Lemma get_embedding_quiet h txt :
  upserts (snd (get_embedding W key txt h)) = [] /\
  gets (snd (get_embedding W key txt h)) = [] /\
  posts (snd (get_embedding W key txt h)) = [txt].
Proof.
  rewrite get_embedding_run.
  destruct (post_answer W key h txt) as [resp|e]; [destruct (status_code resp =? 200)|];
    simpl; auto.
Qed.

Lemma read_embedding_found resp v :
  embedding_of resp = Some v -> read_embedding resp = Ok v.
Proof.
  unfold embedding_of, read_embedding.
  destruct (body resp) as [[| | | | | |fields]|]; try discriminate.
  destruct (lookup (lit "data") fields) as [[| | | | |[|[| | | | | |ff] l]|]|];
    try discriminate.
  simpl. intros ->. reflexivity.
Qed.

Lemma read_embedding_ok resp v :
  read_embedding resp = Ok v ->
  (v = JNull /\ data_falsy resp) \/ embedding_of resp = Some v.
Proof.
  unfold embedding_of, read_embedding, data_falsy.
  destruct (body resp) as [[| | | | | |fields]|]; try discriminate.
  destruct (lookup (lit "data") fields) as [d|] eqn:L.
  - destruct (truthy d) eqn:T.
    + destruct d as [| | | |[|c s]|[|x l]|]; simpl; try discriminate.
      destruct x as [| | | | | |ff]; simpl; try discriminate.
      destruct (lookup (lit "embedding") ff); [|discriminate].
      intros [= ->]. right; reflexivity.
    + intros [= <-]. left. split; [reflexivity|].
      exists fields. rewrite L. auto.
  - intros [= <-]. left. split; [reflexivity|].
    exists fields. rewrite L. auto.
Qed.

(** C5, as the code has it.  With the answer [resp] of the embedding
    service at hand, [get_embedding] returns [None] when the status is
    not 200 or when the 200 body is an object whose [data] is absent or
    falsy; it returns the [embedding] of the first element of [data]
    when there is one, unchanged (so [None] again for a null
    embedding); and it returns in no other case. *)
Theorem get_embedding_returns h txt resp :
  post_answer W key h txt = Ok resp ->
  let out := fst (get_embedding W key txt h) in
  (status_code resp <> 200 -> out = Ok JNull) /\
  (status_code resp = 200 -> data_falsy resp -> out = Ok JNull) /\
  (status_code resp = 200 ->
   forall v, embedding_of resp = Some v -> out = Ok v) /\
  (forall v, out = Ok v ->
     (v = JNull /\ (status_code resp <> 200 \/ data_falsy resp)) \/
     (status_code resp = 200 /\ embedding_of resp = Some v)).
Proof.
  intros E out. subst out. rewrite get_embedding_run, E.
  destruct (Z.eqb_spec (status_code resp) 200) as [S|S]; simpl.
  - repeat split.
    + congruence.
    + intros _ (fields & B & D). unfold read_embedding. rewrite B.
      destruct (lookup (lit "data") fields); [rewrite D|]; reflexivity.
    + intros _ v. apply read_embedding_found.
    + intros v Hv. destruct (read_embedding_ok _ _ Hv) as [[-> F]|F]; auto.
  - repeat split; try congruence.
    intros v [= <-]. auto.
Qed.

End Embedding.

(** ** Indexing one track *)

Section Indexing.
Variable R : Runtime.
Variable W : World.
Variable key : str.

(** A truthy embedding comes from a 200 answer holding it. *)
Lemma get_embedding_truthy h alias v t :
  get_embedding W key alias h = (Ok v, t) ->
  truthy v = true ->
  t = [post_event W key h alias] /\
  exists resp,
    post_answer W key h alias = Ok resp /\
    status_code resp = 200 /\
    embedding_of resp = Some v.
Proof.
  rewrite get_embedding_run.
  destruct (post_answer W key h alias) as [resp|e]; [|discriminate].
  destruct (Z.eqb_spec (status_code resp) 200) as [S|S].
  - intros [= Hv <-] T. split; [reflexivity|].
    exists resp. repeat split; auto.
    destruct (read_embedding_ok _ _ Hv) as [[-> _]|F]; [discriminate|auto].
  - intros [= <- <-]. discriminate.
Qed.

(** The loop skips an alias whose embedding is falsy and goes on with
    the same list of points. *)
Lemma index_aliases_skip mid alias rest pts h v t :
  get_embedding W key alias h = (Ok v, t) ->
  truthy v = false ->
  index_aliases R W key mid (alias :: rest) pts h =
    (fst (index_aliases R W key mid rest pts (h ++ t)),
     t ++ snd (index_aliases R W key mid rest pts (h ++ t))).
Proof.
  intros E T. simpl.
  rewrite (bind_ok _ _ _ _ _ E). rewrite T. reflexivity.
Qed.

(** The loop appends one point for an alias that embeds. *)
Lemma index_aliases_keep mid alias rest pts h v t u w :
  get_embedding W key alias h = (Ok v, t) ->
  truthy v = true ->
  generate_uuid R mid alias = Ok u ->
  validate_vector R v = Some w ->
  let p := Point u w (alias_payload mid alias) in
  index_aliases R W key mid (alias :: rest) pts h =
    (fst (index_aliases R W key mid rest (pts ++ [p]) (h ++ t)),
     t ++ snd (index_aliases R W key mid rest (pts ++ [p]) (h ++ t))).
Proof.
  intros E T U V p. simpl.
  rewrite (bind_ok _ _ _ _ _ E). rewrite T. simpl.
  rewrite U, bind_lift_ok. unfold PointStruct. rewrite V, bind_lift_ok.
  reflexivity.
Qed.

(** The loop raises what the embedding of an alias raises, or what
    building its point raises, and stops there. *)
Lemma index_aliases_cases mid alias rest pts h :
  let '(r, t) := get_embedding W key alias h in
  index_aliases R W key mid (alias :: rest) pts h =
    match r with
    | Raise e => (Raise e, t)
    | Ok v =>
        if truthy v then
          match generate_uuid R mid alias with
          | Raise e => (Raise e, t)
          | Ok u =>
              match validate_vector R v with
              | Some w =>
                  let p := Point u w (alias_payload mid alias) in
                  (fst (index_aliases R W key mid rest (pts ++ [p]) (h ++ t)),
                   t ++ snd (index_aliases R W key mid rest (pts ++ [p])
                               (h ++ t)))
              | None => (Raise ValidationError, t)
              end
          end
        else
          (fst (index_aliases R W key mid rest pts (h ++ t)),
           t ++ snd (index_aliases R W key mid rest pts (h ++ t)))
    end.
Proof.
  destruct (get_embedding W key alias h) as [[v|e] t] eqn:E.
  - destruct (truthy v) eqn:T.
    + destruct (generate_uuid R mid alias) as [u|e] eqn:U.
      * destruct (validate_vector R v) as [w|] eqn:V.
        -- apply index_aliases_keep with (v := v); assumption.
        -- simpl. rewrite (bind_ok _ _ _ _ _ E), T. simpl.
           rewrite U, bind_lift_ok. unfold PointStruct. rewrite V.
           rewrite bind_lift_raise. simpl. rewrite app_nil_r. reflexivity.
      * simpl. rewrite (bind_ok _ _ _ _ _ E), T. simpl.
        rewrite U, bind_lift_raise. simpl. rewrite app_nil_r. reflexivity.
    + apply index_aliases_skip with (v := v); assumption.
  - simpl. rewrite (bind_raise _ _ _ _ _ E). reflexivity.
Qed.

Lemma index_aliases_quiet mid aliases : forall pts h,
  upserts (snd (index_aliases R W key mid aliases pts h)) = [] /\
  gets (snd (index_aliases R W key mid aliases pts h)) = [].
Proof.
  induction aliases as [|alias rest IH]; intros pts h; [simpl; auto|].
  pose proof (index_aliases_cases mid alias rest pts h) as C.
  destruct (get_embedding_quiet W key h alias) as (U & G & _).
  destruct (get_embedding W key alias h) as [[v|e] t].
  - simpl in U, G.
    destruct (truthy v);
      [destruct (generate_uuid R mid alias);
         [destruct (validate_vector R v)|]|];
      rewrite C; simpl; auto;
      rewrite upserts_app, gets_app, U, G; simpl; apply IH.
  - rewrite C. auto.
Qed.

(** Every point the loop adds has its source in the loop's trace. *)
Lemma index_aliases_points mid aliases : forall pts h pts',
  fst (index_aliases R W key mid aliases pts h) = Ok pts' ->
  exists new,
    pts' = pts ++ new /\
    Forall (point_source R W key mid
              (snd (index_aliases R W key mid aliases pts h))) new.
Proof.
  induction aliases as [|alias rest IH]; intros pts h pts'.
  - simpl. intros [= <-]. exists []. rewrite app_nil_r. auto.
  - pose proof (index_aliases_cases mid alias rest pts h) as C.
    destruct (get_embedding W key alias h) as [[v|e] t] eqn:E;
      [|rewrite C; discriminate].
    destruct (truthy v) eqn:T.
    + destruct (generate_uuid R mid alias) as [u|e] eqn:U;
        [|rewrite C; discriminate].
      destruct (validate_vector R v) as [w|] eqn:V; [|rewrite C; discriminate].
      rewrite C. simpl. intros Hr.
      destruct (IH _ _ _ Hr) as (new & -> & F).
      destruct (get_embedding_truthy _ _ _ _ E T) as (-> & resp & A & S & Em).
      exists (Point u w (alias_payload mid alias) :: new).
      split; [rewrite <- app_assoc; reflexivity|].
      constructor.
      * exists alias, h, resp, v. simpl. repeat split; auto.
      * eapply Forall_impl; [|exact F].
        intros p (a & h' & r' & v' & I & Rest).
        exists a, h', r', v'. split; [simpl; auto|exact Rest].
    + rewrite C. simpl. intros Hr.
      destruct (IH _ _ _ Hr) as (new & -> & F).
      exists new. split; [reflexivity|].
      eapply Forall_impl; [|exact F].
      intros p (a & h' & r' & v' & I & Rest).
      exists a, h', r', v'. split; [apply in_or_app; auto|exact Rest].
Qed.

(** [index_song] step by step: one GET, then the loop, then at most
    one upsert, which is the last event. *)
Lemma index_song_run mid h :
  let r := requests_get W h (song_url R mid) in
  let ev := EvGet (song_url R mid) r in
  index_song R W key mid h =
    match r with
    | Raise e => (Raise e, [ev])
    | Ok resp =>
        if status_code resp =? 404 then (Ok 0, [ev])
        else if status_code resp =? 200 then
          match track_aliases resp with
          | Raise e => (Raise e, [ev])
          | Ok None => (Ok 0, [ev])
          | Ok (Some items) =>
              let '(r2, t2) :=
                index_aliases R W key mid items [] (h ++ [ev]) in
              match r2 with
              | Raise e => (Raise e, ev :: t2)
              | Ok [] => (Ok 0, ev :: t2)
              | Ok pts =>
                  let u :=
                    client_upsert W ((h ++ [ev]) ++ t2) COLLECTION_NAME pts in
                  (match u with
                   | Ok _ => Ok (Z.of_nat (length pts))
                   | Raise e => Raise e
                   end,
                   ev :: t2 ++ [EvUpsert COLLECTION_NAME pts u])
              end
          end
        else (Ok 0, [ev; EvPrint (LogApiError mid (status_code resp))])
    end.
Proof.
  intros r ev. unfold index_song.
  assert (G : http_get W (song_url R mid) h = (r, [ev])) by reflexivity.
  destruct r as [resp|e] eqn:Er; [|rewrite (bind_raise _ _ _ _ _ G); reflexivity].
  rewrite (bind_ok _ _ _ _ _ G).
  destruct (status_code resp =? 404); [reflexivity|].
  destruct (status_code resp =? 200); simpl; [|reflexivity].
  unfold track_aliases, resp_json.
  destruct (body resp) as [j|]; [|reflexivity].
  rewrite bind_lift_ok.
  destruct j as [| | | | | |fields]; try reflexivity.
  unfold dict_get.
  set (aliases := match lookup (lit "aliases") fields with
                  | Some a => a | None => JArr [] end).
  assert (D : (match lookup (lit "aliases") fields with
               | Some v => Ok v | None => Ok (JArr []) end) = Ok aliases)
    by (unfold aliases; destruct (lookup _ fields); reflexivity).
  rewrite D, bind_lift_ok.
  destruct (truthy aliases); simpl; [|reflexivity].
  destruct (iterate aliases) as [items|e]; [|reflexivity].
  rewrite bind_lift_ok.
  destruct (index_aliases R W key mid items [] (h ++ [ev])) as [[pts|e] t2] eqn:L.
  - rewrite (bind_ok _ _ _ _ _ L). destruct pts as [|p pts].
    + simpl. rewrite app_nil_r. reflexivity.
    + unfold bind, upsert, ret.
      destruct (client_upsert W ((h ++ [ev]) ++ t2) COLLECTION_NAME (p :: pts));
        simpl; rewrite ?app_nil_r; reflexivity.
  - rewrite (bind_raise _ _ _ _ _ L). reflexivity.
Qed.

Lemma index_song_outcome mid h :
  song_outcome R W key mid h (fst (index_song R W key mid h))
    (snd (index_song R W key mid h)).
Proof.
  rewrite index_song_run.
  destruct (requests_get W h (song_url R mid)) as [resp|e];
    [|apply Aborted; reflexivity].
  destruct (status_code resp =? 404); [apply NothingIndexed; reflexivity|].
  destruct (status_code resp =? 200); [|apply NothingIndexed; reflexivity].
  destruct (track_aliases resp) as [[items|]|e];
    [|apply NothingIndexed; reflexivity|apply Aborted; reflexivity].
  set (ev := EvGet (song_url R mid) (Ok resp)).
  pose proof (index_aliases_quiet mid items [] (h ++ [ev])) as [Q _].
  pose proof (index_aliases_points mid items [] (h ++ [ev])) as P.
  destruct (index_aliases R W key mid items [] (h ++ [ev])) as [[pts|e] t2];
    simpl in *; [|apply Aborted; simpl; assumption].
  destruct pts as [|p pts]; [apply NothingIndexed; simpl; assumption|].
  destruct (P _ eq_refl) as (new & Hn & F). simpl in Hn. subst new.
  replace ((h ++ [ev]) ++ t2) with (h ++ ev :: t2)
    by (rewrite <- app_assoc; reflexivity).
  simpl fst. simpl snd.
  apply (Upserted R W key mid h (ev :: t2) (p :: pts) _); simpl; auto.
  - discriminate.
  - eapply Forall_impl; [|exact F].
    intros q (a & h' & r' & v' & I & Rest). exists a, h', r', v'. simpl; auto.
Qed.

Lemma index_song_gets mid h :
  gets (snd (index_song R W key mid h)) = [song_url R mid].
Proof.
  rewrite index_song_run.
  destruct (requests_get W h (song_url R mid)) as [resp|e]; [|reflexivity].
  destruct (status_code resp =? 404); [reflexivity|].
  destruct (status_code resp =? 200); [|reflexivity].
  destruct (track_aliases resp) as [[items|]|e]; try reflexivity.
  set (ev := EvGet (song_url R mid) (Ok resp)).
  pose proof (index_aliases_quiet mid items [] (h ++ [ev])) as [_ Q].
  destruct (index_aliases R W key mid items [] (h ++ [ev])) as [[pts|e] t2];
    simpl in *; [|rewrite Q; reflexivity].
  destruct pts; simpl; rewrite ?gets_app, Q; reflexivity.
Qed.

End Indexing.

(** ** The main loop *)

Section MainLoop.
Variable R : Runtime.
Variable W : World.
Variable key : str.

Lemma upserts_nil_upserted t : upserts t = [] -> upserted t = 0.
Proof.
  induction t as [|ev t IH]; simpl; [reflexivity|].
  destruct ev; auto; discriminate.
Qed.

(** One turn of the loop never raises: it reports what [index_song]
    returned or raised and hands on the total. *)
Lemma main_step_run i total h :
  main_step R W key i total h =
    let '(r, t) := index_song R W key i h in
    match r with
    | Ok n =>
        if 0 <? n then (Ok (total + n), t ++ [EvPrint (LogIndexed i n)])
        else (Ok total, t)
    | Raise e => (Ok total, t ++ [EvPrint (LogIndexError i e)])
    end.
Proof.
  unfold main_step, try_except.
  destruct (index_song R W key i h) as [[n|e] t] eqn:E.
  - rewrite (bind_ok _ _ _ _ _ E).
    destruct (0 <? n); simpl; rewrite ?app_nil_r; reflexivity.
  - rewrite (bind_raise _ _ _ _ _ E). simpl. reflexivity.
Qed.

Lemma main_step_trace i total h :
  snd (main_step R W key i total h) = snd (main_step R W key i 0 h).
Proof.
  rewrite !main_step_run.
  destruct (index_song R W key i h) as [[n|e] t]; [destruct (0 <? n)|];
    reflexivity.
Qed.

(** The total grows by the number of points the track has upserted. *)
Lemma main_step_total i total h :
  fst (main_step R W key i total h) =
    Ok (total + upserted (snd (index_song R W key i h))).
Proof.
  rewrite main_step_run.
  pose proof (index_song_outcome R W key i h) as O.
  destruct (index_song R W key i h) as [r t]. simpl in O.
  inversion O as [t' U|e t' U|t' pts u U N F Eu]; subst; simpl.
  - rewrite (upserts_nil_upserted _ U). f_equal; lia.
  - rewrite (upserts_nil_upserted _ U). f_equal; lia.
  - rewrite upserted_app, (upserts_nil_upserted _ U).
    destruct pts as [|p pts]; [congruence|].
    destruct (client_upsert W (h ++ t') COLLECTION_NAME (p :: pts)) as [[]|e].
    + replace (0 <? Z.of_nat (length (p :: pts))) with true
        by (symmetry; apply Z.ltb_lt; simpl length; lia).
      cbn [upserted fst]. f_equal; lia.
    + cbn [upserted fst]. f_equal; lia.
Qed.

Lemma main_loop_cons i rest total h :
  main_loop R W key (i :: rest) total h =
    let total' := total + upserted (snd (index_song R W key i h)) in
    let t := snd (main_step R W key i 0 h) in
    (fst (main_loop R W key rest total' (h ++ t)),
     t ++ snd (main_loop R W key rest total' (h ++ t))).
Proof.
  simpl.
  rewrite (bind_ok _ _ h (total + upserted (snd (index_song R W key i h)))
             (snd (main_step R W key i 0 h))); [reflexivity|].
  rewrite (pair_eta (main_step R W key i total h)).
  rewrite main_step_total, main_step_trace. reflexivity.
Qed.

(** The loop ends, whatever the tracks do, with the sum of what each
    processed track has upserted. *)
Lemma main_loop_total ids : forall total h,
  fst (main_loop R W key ids total h) =
    Ok (total + sum (map (fun run => upserted (snd run))
                        (track_runs R W key ids h))).
Proof.
  induction ids as [|i rest IH]; intros total h.
  - simpl. f_equal. lia.
  - rewrite main_loop_cons. simpl. rewrite IH. f_equal. lia.
Qed.

Lemma track_runs_ids ids : forall h,
  map fst (track_runs R W key ids h) = ids.
Proof.
  induction ids as [|i rest IH]; intros h; simpl; [|rewrite IH]; reflexivity.
Qed.

(** The alias requests of the loop are those of its ids, in order. *)
Lemma main_step_gets i total h :
  gets (snd (main_step R W key i total h)) = [song_url R i].
Proof.
  rewrite main_step_run.
  pose proof (index_song_gets R W key i h) as G.
  destruct (index_song R W key i h) as [[n|e] t]; [destruct (0 <? n)|];
    simpl in *; rewrite ?gets_app, G; reflexivity.
Qed.

Lemma main_loop_gets ids : forall total h,
  gets (snd (main_loop R W key ids total h)) = map (song_url R) ids.
Proof.
  induction ids as [|i rest IH]; intros total h; [reflexivity|].
  rewrite main_loop_cons. simpl.
  rewrite gets_app, main_step_gets, IH. reflexivity.
Qed.

Lemma main_run h :
  main R W key h =
    match fetch_music_ids R W h with
    | (Raise e, tf) => (Raise e, tf)
    | (Ok ids, tf) =>
        let found := EvPrint (LogFound (Z.of_nat (length ids))) in
        let h1 := (h ++ tf) ++ [found] in
        let total :=
          sum (map (fun run => upserted (snd run))
                 (track_runs R W key ids h1)) in
        (Ok tt,
         tf ++ found :: snd (main_loop R W key ids 0 h1)
            ++ [EvPrint (LogComplete total)])
    end.
Proof.
  unfold main.
  destruct (fetch_music_ids R W h) as [[ids|e] tf] eqn:F;
    [|rewrite (bind_raise _ _ _ _ _ F); reflexivity].
  rewrite (bind_ok _ _ _ _ _ F).
  rewrite (bind_ok (print (LogFound (Z.of_nat (length ids)))) _ (h ++ tf) tt
             [EvPrint (LogFound (Z.of_nat (length ids)))] eq_refl).
  pose proof (main_loop_total ids 0
                ((h ++ tf) ++ [EvPrint (LogFound (Z.of_nat (length ids)))])) as T.
  destruct (main_loop R W key ids 0 _) as [r tl] eqn:L. simpl in T. subst r.
  rewrite (bind_ok _ _ _ _ _ L). simpl. reflexivity.
Qed.

End MainLoop.

(** ** The claims about indexing *)

Section Claims.
Variable R : Runtime.
Variable W : World.
Variable key : str.

Lemma in_upsert_upserts name pts u t :
  In (EvUpsert name pts u) t -> In (pts, u) (upserts t).
Proof.
  induction t as [|ev t IH]; simpl; [tauto|].
  intros [->|I]; [simpl; auto|].
  destruct ev; simpl; auto.
Qed.

(** C7. A call of [index_song] hands at most one batch to [upsert];
    the batch is never empty, and the call is the last thing the track
    does.  So a track that gathered no point (unknown id, no aliases,
    every embedding skipped) makes no upsert call. *)
Theorem upsert_at_most_once_never_empty (mid : json) (h : trace) :
  let t := snd (index_song R W key mid h) in
  upserts t = [] \/
  exists pts u t0,
    pts <> [] /\
    upserts t0 = [] /\
    t = t0 ++ [EvUpsert COLLECTION_NAME pts u] /\
    upserts t = [(pts, u)].
Proof.
  simpl.
  pose proof (index_song_outcome R W key mid h) as O.
  destruct (index_song R W key mid h) as [r t]. simpl in *.
  inversion O as [t' U|e t' U|t' pts u U N F Eu]; subst; auto.
  right. exists pts, (client_upsert W (h ++ t') COLLECTION_NAME pts), t'.
  rewrite upserts_app, U. auto.
Qed.

(** C6. A track whose alias request is answered 404 makes [index_song]
    return 0 with that request as its only event (so without any
    upsert), and [main]'s loop goes on with the following ids from the
    same total. *)
Theorem not_found_contributes_nothing (mid : json) (h : trace)
    (resp : response) :
  requests_get W h (song_url R mid) = Ok resp ->
  status_code resp = 404 ->
  let ev := EvGet (song_url R mid) (Ok resp) in
  index_song R W key mid h = (Ok 0, [ev]) /\
  upserts (snd (index_song R W key mid h)) = [] /\
  forall rest total,
    main_loop R W key (mid :: rest) total h =
      (fst (main_loop R W key rest total (h ++ [ev])),
       ev :: snd (main_loop R W key rest total (h ++ [ev]))).
Proof.
  intros G S ev.
  assert (E : index_song R W key mid h = (Ok 0, [ev])).
  { rewrite index_song_run, G, S. reflexivity. }
  split; [exact E|]. split; [rewrite E; reflexivity|].
  intros rest total. rewrite main_loop_cons. simpl.
  rewrite main_step_run, E. simpl.
  replace (total + 0) with total by lia. reflexivity.
Qed.

(** C3. [main] reports, as its last line, the sum over the processed
    ids of the points each track has upserted; [index_song] returns
    the length of the batch it has upserted, 0 when it made no upsert
    call; and a track with two aliases that both embed upserts exactly
    the two points made of [generate_uuid(mid, alias)], the embedding
    as [PointStruct] stores it and the payload [{mid, alias, source:
    "haruki"}], and returns 2. *)
Theorem total_is_sum_of_upserted_points :
  (forall h,
     match fetch_music_ids R W h with
     | (Raise e, tf) => main R W key h = (Raise e, tf)
     | (Ok ids, tf) =>
         let found := EvPrint (LogFound (Z.of_nat (length ids))) in
         let runs := track_runs R W key ids ((h ++ tf) ++ [found]) in
         map fst runs = ids /\
         exists tl,
           main R W key h =
             (Ok tt,
              tf ++ found :: tl ++
                [EvPrint
                   (LogComplete (sum (map (fun run => upserted (snd run)) runs)))])
     end) /\
  (forall mid h,
     let t := snd (index_song R W key mid h) in
     match fst (index_song R W key mid h) with
     | Ok n =>
         n = upserted t /\
         (n = 0 /\ upserts t = [] \/
          exists pts, n = Z.of_nat (length pts) /\ upserts t = [(pts, Ok tt)])
     | Raise _ => upserted t = 0
     end) /\
  (forall mid h resp fields a1 a2 v1 v2 w1 w2 t1 t2 u1 u2,
     requests_get W h (song_url R mid) = Ok resp ->
     status_code resp = 200 ->
     body resp = Some (JObj fields) ->
     lookup (lit "aliases") fields = Some (JArr [a1; a2]) ->
     let h1 := h ++ [EvGet (song_url R mid) (Ok resp)] in
     get_embedding W key a1 h1 = (Ok v1, t1) ->
     truthy v1 = true -> validate_vector R v1 = Some w1 ->
     get_embedding W key a2 (h1 ++ t1) = (Ok v2, t2) ->
     truthy v2 = true -> validate_vector R v2 = Some w2 ->
     generate_uuid R mid a1 = Ok u1 ->
     generate_uuid R mid a2 = Ok u2 ->
     let pts := [ Point u1 w1 (alias_payload mid a1);
                  Point u2 w2 (alias_payload mid a2) ] in
     let u := client_upsert W ((h1 ++ t1) ++ t2) COLLECTION_NAME pts in
     upserts (snd (index_song R W key mid h)) = [(pts, u)] /\
     fst (index_song R W key mid h) =
       match u with Ok _ => Ok 2 | Raise e => Raise e end).
Proof.
  split; [|split].
  - intros h. rewrite main_run.
    destruct (fetch_music_ids R W h) as [[ids|e] tf]; [|reflexivity].
    simpl. split; [apply track_runs_ids|].
    eexists. reflexivity.
  - intros mid h. simpl.
    pose proof (index_song_outcome R W key mid h) as O.
    destruct (index_song R W key mid h) as [r t]. simpl in *.
    inversion O as [t' U|e t' U|t' pts u U N F Eu]; subst.
    + rewrite (upserts_nil_upserted _ U). auto.
    + apply upserts_nil_upserted, U.
    + rewrite upserted_app, upserts_app, U, (upserts_nil_upserted _ U).
      destruct (client_upsert W (h ++ t') COLLECTION_NAME pts) as [[]|e];
        simpl; [|reflexivity].
      split; [lia|]. right. exists pts. auto.
  - intros mid h resp fields a1 a2 v1 v2 w1 w2 t1 t2 u1 u2 G S B L h1
      E1 T1 V1 E2 T2 V2 U1 U2 pts u.
    pose proof (index_aliases_quiet R W key mid [a1; a2] [] h1) as [Q _].
    assert (Loop : index_aliases R W key mid [a1; a2] [] h1 =
                     (Ok pts, t1 ++ t2)).
    { rewrite (index_aliases_keep R W key mid a1 [a2] [] h1 v1 t1 u1 w1
                 E1 T1 U1 V1).
      rewrite (index_aliases_keep R W key mid a2 [] _ (h1 ++ t1) v2 t2 u2 w2
                 E2 T2 U2 V2).
      simpl. rewrite app_nil_r. reflexivity. }
    rewrite Loop in Q. simpl in Q.
    assert (TA : track_aliases resp = Ok (Some [a1; a2])).
    { unfold track_aliases. rewrite B, L. reflexivity. }
    rewrite index_song_run. cbv zeta. rewrite G. cbv beta iota.
    rewrite S. change (200 =? 404) with false. change (200 =? 200) with true.
    cbv beta iota. rewrite TA. cbv beta iota. fold h1. rewrite Loop.
    subst pts. cbv beta iota. cbn [snd fst].
    rewrite (app_comm_cons (t1 ++ t2)).
    rewrite upserts_app. cbn [upserts]. rewrite Q.
    rewrite (app_assoc h1 t1 t2). fold u.
    split; [reflexivity|].
    destruct u; reflexivity.
Qed.

Lemma point_source_weaken mid t t' p :
  point_source R W key mid t p -> point_source R W key mid (t ++ t') p.
Proof.
  intros (a & h' & r' & v & I & Rest). exists a, h', r', v.
  split; [apply in_or_app; auto|exact Rest].
Qed.

(** C10, as the code has it.  The vector of every point handed to
    [upsert] is what [PointStruct] validation stored for the [embedding]
    that the service returned, truthy and with status 200, for the alias
    of the point.  The script compares no length with 1024: the vector
    is as long as validation leaves what the service sent.  (The
    constant 1024 only goes into [create_collection].) *)
Theorem upserted_vector_is_service_embedding (mid : json) (h : trace)
    (name : str) (pts : list point) (u : result unit) (p : point) :
  In (EvUpsert name pts u) (snd (index_song R W key mid h)) ->
  In p pts ->
  point_source R W key mid (snd (index_song R W key mid h)) p.
Proof.
  pose proof (index_song_outcome R W key mid h) as O.
  destruct (index_song R W key mid h) as [r t]. simpl in *.
  intros I Ip.
  inversion O as [t' U|e t' U|t' pts' u' U N F Eu]; subst.
  - apply in_upsert_upserts in I. rewrite U in I. destruct I.
  - apply in_upsert_upserts in I. rewrite U in I. destruct I.
  - apply in_app_or in I. destruct I as [I|[I|[]]].
    + apply in_upsert_upserts in I. rewrite U in I. destruct I.
    + injection I as _ <- _. apply point_source_weaken.
      rewrite Forall_forall in F. apply F, Ip.
Qed.


End Claims.

(** ** The track list *)

Section TrackList.
Variable R : Runtime.
Variable W : World.
Variable key : str.

Lemma insert_int_perm x l : Permutation (x :: l) (insert_int x l).
Proof.
  induction l as [|y l IH]; simpl; [reflexivity|].
  destruct (x <=? y); [reflexivity|].
  rewrite perm_swap. apply perm_skip, IH.
Qed.

Lemma sort_ints_perm l : Permutation l (sort_ints l).
Proof.
  induction l as [|x l IH]; simpl; [constructor|].
  rewrite <- insert_int_perm. apply perm_skip, IH.
Qed.

Lemma insert_int_sorted x l : Sorted Z.le l -> Sorted Z.le (insert_int x l).
Proof.
  induction l as [|y l IH]; simpl; intros S.
  - repeat constructor.
  - destruct (Z.leb_spec x y) as [Le|Gt].
    + constructor; [exact S|constructor; exact Le].
    + inversion S as [|? ? S' Hd]; subst.
      constructor; [apply IH, S'|].
      destruct l as [|z l]; simpl.
      * constructor. lia.
      * destruct (Z.leb_spec x z); constructor; [lia|].
        inversion Hd; assumption.
Qed.

Lemma sort_ints_sorted l : Sorted Z.le (sort_ints l).
Proof.
  induction l as [|x l IH]; simpl; [constructor|].
  apply insert_int_sorted, IH.
Qed.

Lemma all_ints_map ns : all_ints (map JInt ns) = Some ns.
Proof.
  induction ns as [|n ns IH]; simpl; [reflexivity|]. rewrite IH. reflexivity.
Qed.

Lemma collect_ids_objects items :
  forallb is_object items = true -> collect_ids items = Ok (id_fields items).
Proof.
  induction items as [|item items IH]; simpl; [reflexivity|].
  destruct item as [| | | | | |fields]; try discriminate.
  simpl. intros H. rewrite (IH H).
  destruct (lookup (lit "id") fields); reflexivity.
Qed.

(** [fetch_music_ids] step by step. *)
Lemma fetch_music_ids_run h :
  let p := EvPrint (LogFetching MUSICS_JSON_URL) in
  let r := requests_get W (h ++ [p]) MUSICS_JSON_URL in
  let g := EvGet MUSICS_JSON_URL r in
  fetch_music_ids R W h =
    match r with
    | Raise e => (Raise e, [p; g])
    | Ok resp =>
        if status_code resp =? 200 then
          match parse_ids R resp with
          | Ok ids => (Ok ids, [p; g])
          | Raise e => (Ok [], [p; g; EvPrint (LogParseError e)])
          end
        else (Ok [], [p; g; EvPrint (LogFetchFailed (status_code resp))])
    end.
Proof.
  intros p r g. unfold fetch_music_ids.
  rewrite (bind_ok (print (LogFetching MUSICS_JSON_URL)) _ h tt [p] eq_refl).
  assert (G : http_get W MUSICS_JSON_URL (h ++ [p]) = (r, [g])) by reflexivity.
  destruct r as [resp|e] eqn:Er;
    [|rewrite (bind_raise _ _ _ _ _ G); reflexivity].
  rewrite (bind_ok _ _ _ _ _ G).
  destruct (status_code resp =? 200); simpl; [|reflexivity].
  unfold try_except, parse_ids.
  destruct (resp_json resp) as [musics|e]; [|reflexivity].
  rewrite bind_lift_ok.
  destruct (iterate musics) as [items|e]; [|reflexivity].
  rewrite bind_lift_ok.
  destruct (collect_ids items) as [ids|e]; [|reflexivity].
  rewrite bind_lift_ok. unfold lift.
  destruct (list_sort R ids); reflexivity.
Qed.

Lemma insert_str_perm x l : Permutation (x :: l) (insert_str x l).
Proof.
  induction l as [|y l IH]; simpl; [reflexivity|].
  destruct (str_leb x y); [reflexivity|].
  rewrite perm_swap. apply perm_skip, IH.
Qed.

Lemma sort_strs_perm l : Permutation l (sort_strs l).
Proof.
  induction l as [|x l IH]; simpl; [constructor|].
  rewrite <- insert_str_perm. apply perm_skip, IH.
Qed.

(** The order of strings is a total order. *)
Lemma str_leb_total a : forall b, str_leb a b = false -> str_leb b a = true.
Proof.
  induction a as [|x a IH]; intros [|y b]; simpl; try discriminate; auto.
  destruct (N.ltb_spec x y) as [L|L]; [discriminate|].
  destruct (N.eqb_spec x y) as [->|D].
  - rewrite N.ltb_irrefl, N.eqb_refl. apply IH.
  - intros _. destruct (N.ltb_spec y x); [reflexivity|lia].
Qed.

Lemma str_leb_refl a : str_leb a a = true.
Proof.
  induction a as [|x a IH]; simpl; [reflexivity|].
  rewrite N.ltb_irrefl, N.eqb_refl. exact IH.
Qed.

Lemma str_leb_antisym a : forall b,
  str_leb a b = true -> str_leb b a = true -> a = b.
Proof.
  induction a as [|x a IH]; intros [|y b]; simpl; try discriminate; auto.
  destruct (N.ltb_spec x y) as [L|L].
  - destruct (N.ltb_spec y x); [lia|].
    destruct (N.eqb_spec y x); [lia|discriminate].
  - destruct (N.eqb_spec x y) as [->|D]; [|discriminate].
    rewrite N.ltb_irrefl, N.eqb_refl. intros A B.
    rewrite (IH _ A B). reflexivity.
Qed.

Lemma str_leb_trans a : forall b c,
  str_leb a b = true -> str_leb b c = true -> str_leb a c = true.
Proof.
  induction a as [|x a IH]; intros [|y b] [|z c]; simpl;
    try discriminate; auto.
  destruct (N.ltb_spec x y) as [L|L].
  - intros _. destruct (N.ltb_spec y z) as [M|M].
    + intros _. destruct (N.ltb_spec x z); [reflexivity|lia].
    + destruct (N.eqb_spec y z) as [->|D]; [|discriminate].
      intros _. destruct (N.ltb_spec x z); [reflexivity|lia].
  - destruct (N.eqb_spec x y) as [->|D]; [|discriminate].
    intros A. destruct (N.ltb_spec y z) as [M|M]; [reflexivity|].
    destruct (N.eqb_spec y z) as [->|D]; [|discriminate].
    apply IH, A.
Qed.

Lemma insert_str_sorted x l : Sorted str_le l -> Sorted str_le (insert_str x l).
Proof.
  induction l as [|y l IH]; simpl; intros S.
  - repeat constructor.
  - destruct (str_leb x y) eqn:Le.
    + constructor; [exact S|constructor; exact Le].
    + inversion S as [|? ? S' Hd]; subst.
      constructor; [apply IH, S'|].
      destruct l as [|z l]; simpl.
      * constructor. apply str_leb_total, Le.
      * destruct (str_leb x z); constructor;
          [apply str_leb_total, Le|].
        inversion Hd; assumption.
Qed.

Lemma sort_strs_sorted l : Sorted str_le (sort_strs l).
Proof.
  induction l as [|x l IH]; simpl; [constructor|].
  apply insert_str_sorted, IH.
Qed.

Lemma all_strs_map ss : all_strs (map JStr ss) = Some ss.
Proof.
  induction ss as [|x ss IH]; simpl; [reflexivity|]. rewrite IH. reflexivity.
Qed.

Lemma all_ints_in ids : forall ns v,
  all_ints ids = Some ns -> In v ids -> exists n, v = JInt n.
Proof.
  induction ids as [|x ids IH]; intros ns v E I; [destruct I|].
  destruct I as [<-|I].
  - destruct x; try discriminate E. eauto.
  - destruct x; try discriminate E. simpl in E.
    destruct (all_ints ids) as [ms|]; [|discriminate]. eapply IH; eauto.
Qed.

Lemma all_strs_in ids : forall ss v,
  all_strs ids = Some ss -> In v ids -> exists s, v = JStr s.
Proof.
  induction ids as [|x ids IH]; intros ss v E I; [destruct I|].
  destruct I as [<-|I].
  - destruct x; try discriminate E. eauto.
  - destruct x; try discriminate E. simpl in E.
    destruct (all_strs ids) as [ms|]; [|discriminate]. eapply IH; eauto.
Qed.

(** A list that holds an integer and a string does not sort. *)
Lemma list_sort_mixed ids n s :
  forallb int_or_str ids = true ->
  In (JInt n) ids -> In (JStr s) ids ->
  list_sort R ids = Raise TypeError.
Proof.
  intros A Hn Hs. unfold list_sort.
  destruct (all_ints ids) as [ns|] eqn:I.
  { destruct (all_ints_in _ _ _ I Hs) as (m & D). discriminate D. }
  destruct (all_strs ids) as [ss|] eqn:S.
  { destruct (all_strs_in _ _ _ S Hn) as (m & D). discriminate D. }
  rewrite A. reflexivity.
Qed.

(** [main] after a track list that yields [ids]. *)
Lemma main_after_fetch h ids tf :
  fetch_music_ids R W h = (Ok ids, tf) ->
  fst (main R W key h) = Ok tt /\
  gets (snd (main R W key h)) = gets tf ++ map (song_url R) ids.
Proof.
  intros F. rewrite main_run, F. simpl. split; [reflexivity|].
  rewrite gets_app. f_equal. simpl. rewrite gets_app, main_loop_gets. simpl.
  rewrite app_nil_r. reflexivity.
Qed.

(** C9, as the code has it.  When the track list is fetched with
    status 200 and is a list of objects, the ids are the [id] fields
    present (items without [id] add nothing, equal ids stay), sorted:
    - if the ids are all integers, [main] sends, after the track-list
      request, the alias requests of the ids in ascending order;
    - if the ids are all strings, the same, in the ascending order of
      strings, code point by code point;
    - if the ids are integers and strings, both present, the sort
      raises [TypeError]: no id is processed and [main] completes
      reporting 0.
    When the track-list request is answered with another status, or
    with a body that is not JSON, no id is processed and [main]
    completes reporting 0. *)
Theorem ids_processed_in_ascending_order (h : trace) (resp : response) :
  let p := EvPrint (LogFetching MUSICS_JSON_URL) in
  let g := EvGet MUSICS_JSON_URL (Ok resp) in
  requests_get W (h ++ [p]) MUSICS_JSON_URL = Ok resp ->
  (forall items ns,
     status_code resp = 200 ->
     body resp = Some (JArr items) ->
     forallb is_object items = true ->
     id_fields items = map JInt ns ->
     exists sorted,
       Permutation ns sorted /\
       Sorted Z.le sorted /\
       fetch_music_ids R W h = (Ok (map JInt sorted), [p; g]) /\
       fst (main R W key h) = Ok tt /\
       gets (snd (main R W key h)) =
         MUSICS_JSON_URL :: map (song_url R) (map JInt sorted)) /\
  (forall items ss,
     status_code resp = 200 ->
     body resp = Some (JArr items) ->
     forallb is_object items = true ->
     id_fields items = map JStr ss ->
     exists sorted,
       Permutation ss sorted /\
       Sorted str_le sorted /\
       fetch_music_ids R W h = (Ok (map JStr sorted), [p; g]) /\
       fst (main R W key h) = Ok tt /\
       gets (snd (main R W key h)) =
         MUSICS_JSON_URL :: map (song_url R) (map JStr sorted)) /\
  (forall items n s,
     status_code resp = 200 ->
     body resp = Some (JArr items) ->
     forallb is_object items = true ->
     forallb int_or_str (id_fields items) = true ->
     In (JInt n) (id_fields items) ->
     In (JStr s) (id_fields items) ->
     fst (fetch_music_ids R W h) = Ok [] /\
     main R W key h =
       (Ok tt,
        [p; g; EvPrint (LogParseError TypeError); EvPrint (LogFound 0);
         EvPrint (LogComplete 0)])) /\
  (status_code resp <> 200 \/ body resp = None ->
   exists line,
     fst (fetch_music_ids R W h) = Ok [] /\
     main R W key h =
       (Ok tt,
        [p; g; EvPrint line; EvPrint (LogFound 0); EvPrint (LogComplete 0)])).
Proof.
  intros p g G. subst p g.
  assert (Run : forall items,
            status_code resp = 200 ->
            body resp = Some (JArr items) ->
            forallb is_object items = true ->
            fetch_music_ids R W h =
              match list_sort R (id_fields items) with
              | Ok ids =>
                  (Ok ids, [EvPrint (LogFetching MUSICS_JSON_URL);
                            EvGet MUSICS_JSON_URL (Ok resp)])
              | Raise e =>
                  (Ok [], [EvPrint (LogFetching MUSICS_JSON_URL);
                           EvGet MUSICS_JSON_URL (Ok resp);
                           EvPrint (LogParseError e)])
              end).
  { intros items S B O.
    rewrite fetch_music_ids_run. cbv zeta. rewrite G, S. simpl.
    unfold parse_ids, resp_json. rewrite B. simpl.
    rewrite (collect_ids_objects _ O). reflexivity. }
  split; [|split; [|split]].
  - intros items ns S B O I. exists (sort_ints ns).
    assert (F : fetch_music_ids R W h =
                  (Ok (map JInt (sort_ints ns)),
                   [EvPrint (LogFetching MUSICS_JSON_URL);
                    EvGet MUSICS_JSON_URL (Ok resp)])).
    { rewrite (Run _ S B O), I.
      unfold list_sort. rewrite all_ints_map. reflexivity. }
    split; [apply sort_ints_perm|]. split; [apply sort_ints_sorted|].
    split; [exact F|]. exact (main_after_fetch _ _ _ F).
  - intros items ss S B O I. exists (sort_strs ss).
    assert (F : fetch_music_ids R W h =
                  (Ok (map JStr (sort_strs ss)),
                   [EvPrint (LogFetching MUSICS_JSON_URL);
                    EvGet MUSICS_JSON_URL (Ok resp)])).
    { rewrite (Run _ S B O), I.
      unfold list_sort. rewrite all_strs_map.
      destruct ss as [|x ss]; reflexivity. }
    split; [apply sort_strs_perm|]. split; [apply sort_strs_sorted|].
    split; [exact F|]. exact (main_after_fetch _ _ _ F).
  - intros items n s S B O A Hn Hs.
    assert (F : fetch_music_ids R W h =
                  (Ok [], [EvPrint (LogFetching MUSICS_JSON_URL);
                           EvGet MUSICS_JSON_URL (Ok resp);
                           EvPrint (LogParseError TypeError)])).
    { rewrite (Run _ S B O), (list_sort_mixed _ n s A Hn Hs). reflexivity. }
    rewrite main_run, F. split; reflexivity.
  - intros Bad.
    assert (F : exists line,
               fetch_music_ids R W h =
                 (Ok [], [EvPrint (LogFetching MUSICS_JSON_URL);
                          EvGet MUSICS_JSON_URL (Ok resp); EvPrint line])).
    { rewrite fetch_music_ids_run. cbv zeta. rewrite G.
      destruct (Z.eqb_spec (status_code resp) 200) as [S|S].
      - destruct Bad as [Bad|B]; [contradiction|].
        unfold parse_ids, resp_json. rewrite B. eexists; reflexivity.
      - eexists; reflexivity. }
    destruct F as (line & F). exists line.
    rewrite main_run, F. split; reflexivity.
Qed.

End TrackList.

(** ** Finitely many ids *)

Section Pigeonhole.

Lemma bounded_search (f : nat -> Z) (v : Z) (k : nat) :
  (exists i, (i <= k)%nat /\ f i = v) \/
  (forall i, (i <= k)%nat -> f i <> v).
Proof.
  induction k as [|k [(i & Hi & E)|No]].
  - destruct (Z.eq_dec (f 0%nat) v) as [E|N].
    + left. exists 0%nat. auto.
    + right. intros i Hi. replace i with 0%nat by lia. exact N.
  - left. exists i. split; [lia|exact E].
  - destruct (Z.eq_dec (f (S k)) v) as [E|N].
    + left. exists (S k). auto.
    + right. intros i Hi.
      destruct (Nat.eq_dec i (S k)) as [->|D]; [exact N|].
      apply No. lia.
Qed.

(** [n + 1] arguments cannot get distinct values among [n]. *)
Lemma pigeonhole (n : nat) : forall f : nat -> Z,
  (forall i, (i <= n)%nat -> 0 <= f i < Z.of_nat n) ->
  exists i j, (i < j <= n)%nat /\ f i = f j.
Proof.
  induction n as [|n IH]; intros f B.
  - specialize (B 0%nat (le_n 0)). simpl in B. lia.
  - destruct (bounded_search f (f (S n)) n) as [(i & Hi & E)|No].
    + exists i, (S n). split; [lia|exact E].
    + set (g := fun i => if f i =? Z.of_nat n then f (S n) else f i).
      destruct (IH g) as (i & j & Hij & E).
      * intros i Hi. unfold g.
        pose proof (B i ltac:(lia)) as Bi.
        pose proof (B (S n) ltac:(lia)) as Bn.
        pose proof (No i Hi) as Ni.
        destruct (Z.eqb_spec (f i) (Z.of_nat n)); lia.
      * unfold g in E.
        pose proof (No i ltac:(lia)) as Ni.
        pose proof (No j ltac:(lia)) as Nj.
        exists i, j. split; [lia|].
        destruct (Z.eqb_spec (f i) (Z.of_nat n));
          destruct (Z.eqb_spec (f j) (Z.of_nat n)); congruence.
Qed.

(** The arguments [0 .. N], with values below [N], hold a collision. *)
Lemma collision_within (N : Z) (f : nat -> Z) :
  (forall i, 0 <= f i < N) ->
  exists i j, (i < j)%nat /\ Z.of_nat j <= N /\ f i = f j.
Proof.
  intros B.
  assert (P : 0 <= N) by (specialize (B 0%nat); lia).
  destruct (pigeonhole (Z.to_nat N) f) as (i & j & Hij & E).
  - intros i _. rewrite Z2Nat.id by exact P. apply B.
  - exists i, j. split; [apply Hij|]. split; [|exact E].
    rewrite <- (Z2Nat.id N) by exact P. apply Nat2Z.inj_le, Hij.
Qed.

Lemma word_length k : forall n, length (word k n) = k.
Proof.
  induction k as [|k IH]; intros n; simpl; [reflexivity|].
  rewrite IH. reflexivity.
Qed.

Lemma word_letters k : forall n, Forall a_or_b (word k n).
Proof.
  induction k as [|k IH]; intros n; simpl; constructor; [|apply IH].
  unfold a_or_b. destruct (Z.odd n); auto.
Qed.

(** Numbers below [2^k] have distinct words of [k] letters. *)
Lemma word_inj k : forall n m,
  0 <= n < 2 ^ Z.of_nat k -> 0 <= m < 2 ^ Z.of_nat k ->
  word k n = word k m -> n = m.
Proof.
  induction k as [|k IH]; intros n m Hn Hm E.
  - simpl in Hn, Hm. lia.
  - rewrite Nat2Z.inj_succ, Z.pow_succ_r in Hn, Hm by lia.
    simpl in E. injection E as Hd Tl.
    assert (Q : n / 2 = m / 2).
    { apply IH; [| |exact Tl]; split;
        try (apply Z.div_pos; lia);
        apply Z.div_lt_upper_bound; lia. }
    pose proof (Z.div_mod n 2 ltac:(lia)) as Dn.
    pose proof (Z.div_mod m 2 ltac:(lia)) as Dm.
    rewrite (Zmod_odd n) in Dn. rewrite (Zmod_odd m) in Dm.
    destruct (Z.odd n), (Z.odd m); try discriminate Hd; lia.
Qed.

Lemma word_well_formed pre k : forall n,
  well_formed pre = true -> well_formed (pre ++ word k n) = true.
Proof.
  intros n P. unfold well_formed. rewrite forallb_app.
  fold (well_formed pre). rewrite P. simpl.
  revert n. induction k as [|k IH]; intros n; [reflexivity|].
  simpl. rewrite IH. destruct (Z.odd n); reflexivity.
Qed.

End Pigeonhole.

(** ** Runs that contradict the wording of some claims *)

(** C5, as worded, fails: answered with [{"data": [{"embedding":
    null}]}] and status 200, [get_embedding] returns [None] although
    [data] is a non-empty list. *)
Lemma none_returned_with_data_present :
  let W := Demo.world_with_reply (Ok Demo.null_embedding) in
  post_answer W Demo.key [] Demo.tell_your_world = Ok Demo.null_embedding /\
  fst (get_embedding W Demo.key Demo.tell_your_world []) = Ok JNull /\
  status_code Demo.null_embedding = 200 /\
  ~ data_empty_or_absent Demo.null_embedding /\
  ~ none_iff_bad_status_or_no_data W Demo.key.
Proof.
  intros W.
  assert (A : post_answer W Demo.key [] Demo.tell_your_world =
              Ok Demo.null_embedding) by (vm_compute; reflexivity).
  assert (N : fst (get_embedding W Demo.key Demo.tell_your_world []) = Ok JNull)
    by (vm_compute; reflexivity).
  assert (D : ~ data_empty_or_absent Demo.null_embedding)
    by (intros F; exact F).
  split; [exact A|]. split; [exact N|]. split; [reflexivity|].
  split; [exact D|].
  intros C. destruct (C [] Demo.tell_your_world _ A) as [C1 _].
  destruct (C1 N) as [S|[_ F]]; [apply S; reflexivity|exact (D F)].
Qed.


(** C9, as worded, fails: a track list fetched with status 200 that
    parses into two objects, with ids 7 and "a", yields no id at all:
    the sort raises [TypeError], which the handler of [fetch_music_ids]
    turns into an empty list, and [main] reports 0 without a single
    alias request. *)
Lemma mixed_ids_void_the_track_list :
  let R := Demo.runtime in
  let W := Demo2.world_with_get (fun _ => Ok Demo2.resp_mixed) in
  let p := EvPrint (LogFetching MUSICS_JSON_URL) in
  let g := EvGet MUSICS_JSON_URL (Ok Demo2.resp_mixed) in
  requests_get W [p] MUSICS_JSON_URL = Ok Demo2.resp_mixed /\
  status_code Demo2.resp_mixed = 200 /\
  body Demo2.resp_mixed = Some (JArr Demo2.musics_mixed) /\
  id_fields Demo2.musics_mixed = [JInt 7; JStr (lit "a")] /\
  fetch_music_ids R W [] =
    (Ok [], [p; g; EvPrint (LogParseError TypeError)]) /\
  main R W Demo.key [] =
    (Ok tt,
     [p; g; EvPrint (LogParseError TypeError); EvPrint (LogFound 0);
      EvPrint (LogComplete 0)]) /\
  ~ id_fields_all_processed R W.
Proof.
  intros R W p g.
  assert (F : fetch_music_ids R W [] =
                (Ok [], [p; g; EvPrint (LogParseError TypeError)]))
    by (vm_compute; reflexivity).
  split; [reflexivity|]. split; [reflexivity|]. split; [reflexivity|].
  split; [reflexivity|]. split; [exact F|].
  split; [vm_compute; reflexivity|].
  intros C.
  destruct (C [] Demo2.resp_mixed Demo2.musics_mixed
              eq_refl eq_refl eq_refl eq_refl) as (ids & E & P).
  rewrite F in E. cbn [fst] in E. injection E as <-.
  apply Permutation_sym, Permutation_nil in P. discriminate P.
Qed.

(** C10, as worded, fails: when the service returns embeddings of two
    numbers, the points of track 7 are upserted with vectors of two
    numbers. *)
Lemma short_vectors_are_upserted :
  let W := Demo.world 2 in
  In (EvUpsert COLLECTION_NAME Demo.points_7 (Ok tt))
     (snd (index_song Demo.runtime W Demo.key (JInt 7) [])) /\
  Forall (fun p => point_vector p = Demo.vec2) Demo.points_7 /\
  ~ vectors_have_dimension Demo.runtime W Demo.key.
Proof.
  intros W.
  assert (I : In (EvUpsert COLLECTION_NAME Demo.points_7 (Ok tt))
                (snd (index_song Demo.runtime W Demo.key (JInt 7) []))).
  { vm_compute. do 3 right. left. reflexivity. }
  split; [exact I|]. split.
  - unfold Demo.points_7. repeat constructor.
  - intros C.
    destruct (C (JInt 7) [] _ _ _
                (Point (Demo.id_of Demo.tell_your_world) Demo.vec2
                   (alias_payload (JInt 7) Demo.tell_your_world))
                I (or_introl eq_refl)) as (items & E & L).
    cbn [point_vector] in E. unfold Demo.vec2 in E.
    injection E as <-. discriminate L.
Qed.

(** C2, as worded, fails: the ids of a track are the texts of numbers
    below [2^128], and there are [2^129] aliases made of 129 letters
    "a" or "b"; two of them, distinct, give track 7 the same id. *)
Lemma some_aliases_share_an_id :
  (exists alias1 alias2 : str,
     alias1 <> alias2 /\
     length alias1 = 129%nat /\ length alias2 = 129%nat /\
     Forall a_or_b alias1 /\ Forall a_or_b alias2 /\
     exists u,
       generate_uuid Demo.runtime (JInt 7) (JStr alias1) = Ok u /\
       generate_uuid Demo.runtime (JInt 7) (JStr alias2) = Ok u) /\
  ~ ids_never_collide Demo.runtime.
Proof.
  assert (C : exists alias1 alias2 : str,
             alias1 <> alias2 /\
             length alias1 = 129%nat /\ length alias2 = 129%nat /\
             Forall a_or_b alias1 /\ Forall a_or_b alias2 /\
             exists u,
               generate_uuid Demo.runtime (JInt 7) (JStr alias1) = Ok u /\
               generate_uuid Demo.runtime (JInt 7) (JStr alias2) = Ok u).
  { destruct (collision_within (2 ^ 128)
                (fun n => id_number Demo.runtime (JInt 7)
                            (JStr (word 129 (Z.of_nat n)))))
      as (i & j & Hij & Hj & E).
    - intros n. apply id_number_bound.
    - assert (P : 2 ^ Z.of_nat 129 = 2 * 2 ^ 128) by (vm_compute; reflexivity).
      exists (word 129 (Z.of_nat i)), (word 129 (Z.of_nat j)).
      split.
      { intros L. apply word_inj in L; rewrite ?P; lia. }
      split; [apply word_length|]. split; [apply word_length|].
      split; [apply word_letters|]. split; [apply word_letters|].
      destruct (utf8_encode_well_formed
                  (raw_key Demo.runtime (JInt 7)
                     (JStr (word 129 (Z.of_nat i)))))
        as (b1 & E1);
        [apply (word_well_formed (lit "7-") 129); reflexivity|].
      destruct (utf8_encode_well_formed
                  (raw_key Demo.runtime (JInt 7)
                     (JStr (word 129 (Z.of_nat j)))))
        as (b2 & E2);
        [apply (word_well_formed (lit "7-") 129); reflexivity|].
      eexists. split.
      + apply (generate_uuid_number _ _ _ _ E1).
      + rewrite (generate_uuid_number _ _ _ _ E2).
        cbv beta in E. rewrite E. reflexivity. }
  split; [exact C|].
  destruct C as (a1 & a2 & D & _ & _ & _ & _ & u & E1 & E2).
  intros Inj. apply (Inj (JInt 7) a1 a2 D). rewrite E1, E2. reflexivity.
Qed.

(** ** The claims on a concrete run

    Track 7 with its two aliases, track 99 unknown, in [Demo.world]. *)

Example str_of_int_samples :
  str_of_int 0 = lit "0" /\ str_of_int 7 = lit "7" /\
  str_of_int (-120) = lit "-120" /\ str_of_int 1000 = lit "1000".
Proof. repeat split. Qed.

Example md5_of_abc :
  MD5.hexdigest (map Z.of_N (lit "abc")) =
    lit "900150983cd24fb0d6963f7d28e17f72".
Proof. vm_compute. reflexivity. Qed.

(** The digest is not injective on short texts: a published pair of
    72-letter texts that differ in one letter and share a digest. *)
Example md5_of_colliding_texts :
  let a := lit "TEXTCOLLBYfGiJUETHQ4hAcKSMd5zYpgqf1YRDhkmxHkhPWptrkoyz28wnI9V0aHeAuaKnak" in
  let b := lit "TEXTCOLLBYfGiJUETHQ4hEcKSMd5zYpgqf1YRDhkmxHkhPWptrkoyz28wnI9V0aHeAuaKnak" in
  a <> b /\
  MD5.hexdigest (map Z.of_N a) = lit "faad49866e9498fc1719f5289e7a0269" /\
  MD5.hexdigest (map Z.of_N b) = lit "faad49866e9498fc1719f5289e7a0269".
Proof.
  intros a b. split; [discriminate|].
  split; vm_compute; reflexivity.
Qed.

(** [PointStruct] stores the integers of a vector as floats. *)
Example point_struct_stores_floats :
  PointStruct Demo.runtime (lit "id") (JArr [JInt 1; JInt 2]) [] =
    Ok (Point (lit "id")
          (JArr [ JFloat (S754_finite false 4503599627370496 (-52));
                  JFloat (S754_finite false 4503599627370496 (-51)) ]) []).
Proof. vm_compute. reflexivity. Qed.

(** Strings sort code point by code point, capitals first. *)
Example sort_strs_sample :
  sort_strs [lit "b"; lit "a"; lit "B"; lit "ab"] =
    [lit "B"; lit "a"; lit "ab"; lit "b"].
Proof. vm_compute. reflexivity. Qed.

Example utf8_of_e_acute_and_surrogate :
  utf8_encode [233%N] = Some [0xC3; 0xA9] /\
  utf8_encode [0x1F600%N] = Some [0xF0; 0x9F; 0x98; 0x80] /\
  utf8_encode [0xD800%N] = None.
Proof. repeat split. Qed.

Example main_reports_two :
  fst (main Demo.runtime (Demo.world 2) Demo.key []) = Ok tt /\
  last (snd (main Demo.runtime (Demo.world 2) Demo.key [])) (EvPrint (LogFound 0)) =
    EvPrint (LogComplete 2) /\
  gets (snd (main Demo.runtime (Demo.world 2) Demo.key [])) =
    [MUSICS_JSON_URL; Demo.alias_url 7; Demo.alias_url 99].
Proof. vm_compute. repeat split. Qed.

Example id_of_tyw :
  generate_uuid Demo.runtime (JInt 7) Demo.tyw =
    Ok (lit "da8389d9-68fc-479d-f2f3-c8be14bbb3d5").
Proof. vm_compute. reflexivity. Qed.

Lemma generate_uuid_is_md5_uuid_witness :
  well_formed (raw_key Demo.runtime (JInt 7) Demo.tyw) = true /\
  exists u,
    generate_uuid Demo.runtime (JInt 7) Demo.tyw = Ok u /\ length u = 36%nat.
Proof.
  assert (WF : well_formed (raw_key Demo.runtime (JInt 7) Demo.tyw) = true)
    by (vm_compute; reflexivity).
  split; [exact WF|].
  exact (proj1 (proj2 (proj2
           (generate_uuid_is_md5_uuid Demo.runtime (JInt 7) Demo.tyw))) WF).
Defined.

Lemma ids_collide_iff_digests_collide_witness :
  utf8_encode (raw_key Demo.runtime (JInt 7) Demo.tell_your_world) =
    Some (Demo.key_bytes Demo.tell_your_world) /\
  utf8_encode (raw_key Demo.runtime (JInt 7) Demo.tyw) =
    Some (Demo.key_bytes Demo.tyw) /\
  (generate_uuid Demo.runtime (JInt 7) Demo.tell_your_world =
     generate_uuid Demo.runtime (JInt 7) Demo.tyw <->
   MD5.digest (Demo.key_bytes Demo.tell_your_world) =
     MD5.digest (Demo.key_bytes Demo.tyw)).
Proof.
  assert (E1 : utf8_encode
                 (raw_key Demo.runtime (JInt 7) Demo.tell_your_world) =
               Some (Demo.key_bytes Demo.tell_your_world))
    by (vm_compute; reflexivity).
  assert (E2 : utf8_encode (raw_key Demo.runtime (JInt 7) Demo.tyw) =
               Some (Demo.key_bytes Demo.tyw))
    by (vm_compute; reflexivity).
  exact (conj E1 (conj E2
           (ids_collide_iff_digests_collide Demo.runtime (JInt 7)
              Demo.tell_your_world Demo.tyw _ _ E1 E2))).
Defined.

Lemma total_is_sum_of_upserted_points_witness :
  let R := Demo.runtime in
  let W := Demo.world 2 in
  requests_get W [] (song_url R (JInt 7)) = Ok Demo.resp_7 /\
  get_embedding W Demo.key Demo.tell_your_world Demo.fetched_7 =
    (Ok Demo.vec2, [post_event W Demo.key Demo.fetched_7 Demo.tell_your_world]) /\
  upserts (snd (index_song R W Demo.key (JInt 7) [])) =
    [(Demo.points_7, Ok tt)] /\
  fst (index_song R W Demo.key (JInt 7) []) = Ok 2.
Proof.
  intros R W.
  split; [vm_compute; reflexivity|]. split; [vm_compute; reflexivity|].
  destruct (total_is_sum_of_upserted_points R W Demo.key) as (_ & _ & S).
  specialize (S (JInt 7) [] Demo.resp_7 Demo.fields_7
                Demo.tell_your_world Demo.tyw Demo.vec2 Demo.vec2
                Demo.vec2 Demo.vec2
                [post_event W Demo.key Demo.fetched_7 Demo.tell_your_world]
                (snd (get_embedding W Demo.key Demo.tyw
                        (Demo.fetched_7 ++
                         [post_event W Demo.key Demo.fetched_7
                            Demo.tell_your_world])))
                (Demo.id_of Demo.tell_your_world) (Demo.id_of Demo.tyw)).
  repeat (cbv zeta in S;
          match type of S with
          | ?P -> _ =>
              let p := fresh "P" in
              assert (p : P) by (vm_compute; reflexivity);
              specialize (S p); clear p
          end).
  cbv zeta in S. destruct S as [Batch Count].
  split; [rewrite Batch|rewrite Count]; vm_compute; reflexivity.
Defined.


Lemma get_embedding_returns_witness :
  let W := Demo.world 2 in
  post_answer W Demo.key [] Demo.tyw =
    Demo.embedding_reply [JFloat Demo.half; JFloat Demo.half] /\
  fst (get_embedding W Demo.key Demo.tyw []) = Ok Demo.vec2.
Proof.
  intros W. split; [reflexivity|].
  destruct (get_embedding_returns W Demo.key [] Demo.tyw
              (Response 200 (lit "")
                 (Some (JObj [ (lit "data",
                                JArr [ JObj [ (lit "embedding", Demo.vec2) ] ]) ])))
              eq_refl) as (_ & _ & Found & _).
  apply Found; reflexivity.
Defined.

Lemma not_found_contributes_nothing_witness :
  let R := Demo.runtime in
  let W := Demo.world 2 in
  requests_get W [] (song_url R (JInt 99)) = Ok Demo.resp_99 /\
  status_code Demo.resp_99 = 404 /\
  index_song R W Demo.key (JInt 99) [] =
    (Ok 0, [EvGet (song_url R (JInt 99)) (Ok Demo.resp_99)]) /\
  fst (main_loop R W Demo.key [JInt 99; JInt 7] 0 []) = Ok 2.
Proof.
  intros R W.
  split; [reflexivity|]. split; [reflexivity|].
  destruct (not_found_contributes_nothing R W Demo.key (JInt 99) []
              Demo.resp_99 eq_refl eq_refl) as (Run & _ & Next).
  split; [exact Run|].
  rewrite (Next [JInt 7] 0). vm_compute. reflexivity.
Defined.

Lemma upsert_at_most_once_never_empty_witness :
  let t := snd (index_song Demo.runtime (Demo.world 2) Demo.key (JInt 7) []) in
  upserts t = [] \/
  exists pts u t0,
    pts <> [] /\ upserts t0 = [] /\
    t = t0 ++ [EvUpsert COLLECTION_NAME pts u] /\ upserts t = [(pts, u)].
Proof.
  exact (upsert_at_most_once_never_empty Demo.runtime (Demo.world 2) Demo.key
           (JInt 7) []).
Defined.

Lemma ensure_collection_creates_iff_absent_witness :
  creations (snd (ensure_collection (Demo.world 2) [])) =
    [(COLLECTION_NAME, 1024, COSINE)] /\
  creations
    (snd (ensure_collection (Demo.world 2)
            (snd (ensure_collection (Demo.world 2) [])))) = [].
Proof.
  split.
  - rewrite (ensure_collection_creates_iff_absent (Demo.world 2) []).
    reflexivity.
  - rewrite (ensure_collection_creates_iff_absent (Demo.world 2)).
    reflexivity.
Defined.

Lemma ids_processed_in_ascending_order_witness :
  let R := Demo.runtime in
  let W := Demo.world 2 in
  let Ws := Demo2.world_with_get (fun _ => Ok Demo2.resp_str) in
  let Wm := Demo2.world_with_get (fun _ => Ok Demo2.resp_mixed) in
  let Wd := Demo2.world_with_get (fun _ => Ok Demo2.unavailable) in
  let p := EvPrint (LogFetching MUSICS_JSON_URL) in
  (requests_get W [p] MUSICS_JSON_URL = Ok Demo.resp_musics /\
   id_fields Demo.musics = map JInt [99; 7] /\
   exists sorted,
     Permutation [99; 7] sorted /\
     Sorted Z.le sorted /\
     gets (snd (main R W Demo.key [])) =
       MUSICS_JSON_URL :: map (song_url R) (map JInt sorted)) /\
  (requests_get Ws [p] MUSICS_JSON_URL = Ok Demo2.resp_str /\
   id_fields Demo2.musics_str =
     map JStr [lit "b"; lit "a"; lit "B"; lit "ab"] /\
   exists sorted,
     Permutation [lit "b"; lit "a"; lit "B"; lit "ab"] sorted /\
     Sorted str_le sorted /\
     gets (snd (main R Ws Demo.key [])) =
       MUSICS_JSON_URL :: map (song_url R) (map JStr sorted)) /\
  (requests_get Wm [p] MUSICS_JSON_URL = Ok Demo2.resp_mixed /\
   In (JInt 7) (id_fields Demo2.musics_mixed) /\
   In (JStr (lit "a")) (id_fields Demo2.musics_mixed) /\
   main R Wm Demo.key [] =
     (Ok tt,
      [p; EvGet MUSICS_JSON_URL (Ok Demo2.resp_mixed);
       EvPrint (LogParseError TypeError); EvPrint (LogFound 0);
       EvPrint (LogComplete 0)])) /\
  (requests_get Wd [p] MUSICS_JSON_URL = Ok Demo2.unavailable /\
   status_code Demo2.unavailable <> 200 /\
   exists line,
     main R Wd Demo.key [] =
       (Ok tt,
        [p; EvGet MUSICS_JSON_URL (Ok Demo2.unavailable); EvPrint line;
         EvPrint (LogFound 0); EvPrint (LogComplete 0)])).
Proof.
  intros R W Ws Wm Wd p.
  split; [|split; [|split]].
  - split; [reflexivity|]. split; [reflexivity|].
    destruct (ids_processed_in_ascending_order R W Demo.key []
                Demo.resp_musics eq_refl) as [Sorts _].
    destruct (Sorts Demo.musics [99; 7] eq_refl eq_refl eq_refl eq_refl)
      as (sorted & P & S & _ & _ & G).
    exists sorted. auto.
  - split; [reflexivity|]. split; [reflexivity|].
    destruct (ids_processed_in_ascending_order R Ws Demo.key []
                Demo2.resp_str eq_refl) as (_ & Sorts & _).
    destruct (Sorts Demo2.musics_str [lit "b"; lit "a"; lit "B"; lit "ab"]
                eq_refl eq_refl eq_refl eq_refl)
      as (sorted & P & S & _ & _ & G).
    exists sorted. auto.
  - assert (I : In (JInt 7) (id_fields Demo2.musics_mixed))
      by (left; reflexivity).
    assert (J : In (JStr (lit "a")) (id_fields Demo2.musics_mixed))
      by (right; left; reflexivity).
    split; [reflexivity|]. split; [exact I|]. split; [exact J|].
    destruct (ids_processed_in_ascending_order R Wm Demo.key []
                Demo2.resp_mixed eq_refl) as (_ & _ & Mixed & _).
    exact (proj2 (Mixed Demo2.musics_mixed 7 (lit "a")
                    eq_refl eq_refl eq_refl eq_refl I J)).
  - assert (S : status_code Demo2.unavailable <> 200) by discriminate.
    split; [reflexivity|]. split; [exact S|].
    destruct (ids_processed_in_ascending_order R Wd Demo.key []
                Demo2.unavailable eq_refl) as (_ & _ & _ & Bad).
    destruct (Bad (or_introl S)) as (line & _ & M).
    exists line. exact M.
Defined.

Lemma upserted_vector_is_service_embedding_witness :
  let R := Demo.runtime in
  let W := Demo.world 2 in
  let t := snd (index_song R W Demo.key (JInt 7) []) in
  In (EvUpsert COLLECTION_NAME Demo.points_7 (Ok tt)) t /\
  Forall (point_source R W Demo.key (JInt 7) t) Demo.points_7.
Proof.
  intros R W t.
  assert (I : In (EvUpsert COLLECTION_NAME Demo.points_7 (Ok tt)) t).
  { vm_compute. do 3 right. left. reflexivity. }
  split; [exact I|].
  apply Forall_forall. intros p Ip.
  exact (upserted_vector_is_service_embedding R W Demo.key (JInt 7) []
           COLLECTION_NAME Demo.points_7 (Ok tt) p I Ip).
Defined.

(* ------------------------------------------------------------------ *)
(** * Further properties of the script *)

(** ** The key ["{mid}-{alias}"] and its bytes *)

Section Keys.

Lemma digit_char_digit d :
  0 <= d < 10 ->
  is_digit (digit_char d) = true /\ Z.of_N (digit_char d) - 48 = d.
Proof.
  intros H. unfold is_digit, digit_char. rewrite Z2N.id by lia.
  split; [|lia].
  apply andb_true_intro. split; apply Z.leb_le; lia.
Qed.

Lemma decimal_value_snoc s c :
  decimal_value (s ++ [c]) = decimal_value s * 10 + (Z.of_N c - 48).
Proof. unfold decimal_value. rewrite fold_left_app. reflexivity. Qed.

(** With enough fuel [pos_digits] writes all the digits of [n]. *)
Lemma pos_digits_spec fuel : forall n acc,
  0 <= n < 2 ^ Z.of_nat fuel ->
  fuel <> 0%nat ->
  exists ds,
    pos_digits fuel n acc = ds ++ acc /\
    ds <> [] /\
    forallb is_digit ds = true /\
    decimal_value ds = n.
Proof.
  induction fuel as [|f IH]; intros n acc B NZ; [congruence|].
  rewrite Nat2Z.inj_succ, Z.pow_succ_r in B by lia.
  assert (M : 0 <= n mod 10 < 10) by (apply Z.mod_pos_bound; lia).
  destruct (digit_char_digit _ M) as [Dg Dv].
  cbn [pos_digits]. destruct (Z.ltb_spec n 10) as [Small|Big].
  - exists [digit_char (n mod 10)]. repeat split.
    + discriminate.
    + simpl. rewrite Dg. reflexivity.
    + unfold decimal_value. simpl. rewrite Dv. apply Z.mod_small. lia.
  - assert (Q : 0 <= n / 10 < 2 ^ Z.of_nat f).
    { split; [apply Z.div_pos; lia|apply Z.div_lt_upper_bound; lia]. }
    assert (F : f <> 0%nat).
    { intros ->. simpl in B. lia. }
    destruct (IH (n / 10) (digit_char (n mod 10) :: acc) Q F)
      as (ds & E & N & D & V).
    exists (ds ++ [digit_char (n mod 10)]). repeat split.
    + rewrite E, <- app_assoc. reflexivity.
    + intros X. apply app_eq_nil in X. destruct X; discriminate.
    + rewrite forallb_app, D. simpl. rewrite Dg. reflexivity.
    + rewrite decimal_value_snoc, V, Dv.
      pose proof (Z.div_mod n 10). lia.
Qed.

Lemma log2_fuel n :
  0 <= n -> 0 <= n < 2 ^ Z.of_nat (Z.to_nat (Z.log2 n) + 1).
Proof.
  intros H. rewrite Nat2Z.inj_add, Z2Nat.id by apply Z.log2_nonneg.
  destruct (Z.eq_dec n 0) as [->|NZ]; [simpl; lia|].
  pose proof (Z.log2_spec n ltac:(lia)) as [_ U].
  change (Z.of_nat 1) with 1. rewrite Z.add_1_r. lia.
Qed.

(** [str(n)] is a run of digits, after a minus sign for a negative
    [n]. *)
Lemma str_of_int_spec n :
  exists ds,
    ds <> [] /\ forallb is_digit ds = true /\
    (0 <= n -> str_of_int n = ds /\ decimal_value ds = n) /\
    (n < 0 -> str_of_int n = 45%N :: ds /\ decimal_value ds = - n).
Proof.
  unfold str_of_int. destruct (Z.ltb_spec n 0) as [Neg|Pos].
  - destruct (pos_digits_spec _ (- n) [] (log2_fuel (- n) ltac:(lia))
                ltac:(lia)) as (ds & E & N & D & V).
    rewrite app_nil_r in E. exists ds.
    split; [exact N|]. split; [exact D|]. split; [intros; lia|].
    intros _. split; [f_equal; exact E|exact V].
  - destruct (pos_digits_spec _ n [] (log2_fuel n Pos) ltac:(lia))
      as (ds & E & N & D & V).
    rewrite app_nil_r in E. exists ds.
    split; [exact N|]. split; [exact D|]. split; [|intros; lia].
    intros _. split; [exact E|exact V].
Qed.

Lemma digit_not_minus c : is_digit c = true -> c <> 45%N.
Proof.
  unfold is_digit. intros H ->. discriminate H.
Qed.

(** X1. The decimal text written for an integer id reads back as that
    integer, so [f"{mid}"] loses nothing of an integer [mid]. *)
Theorem str_of_int_reads_back (n : Z) :
  int_of_decimal (str_of_int n) = Some n.
Proof.
  destruct (str_of_int_spec n) as (ds & N & D & Pos & Neg).
  destruct (Z.lt_ge_cases n 0) as [L|G].
  - destruct (Neg L) as [-> V]. unfold int_of_decimal. simpl.
    destruct ds as [|c ds]; [congruence|]. rewrite D, V. f_equal. lia.
  - destruct (Pos G) as [-> V]. unfold int_of_decimal.
    destruct ds as [|c ds]; [congruence|].
    assert (C : c <> 45%N).
    { apply digit_not_minus. simpl in D. apply andb_prop in D. apply D. }
    apply N.eqb_neq in C. rewrite C, D, V. reflexivity.
Qed.

Lemma split_at_first {A} (x : A) l1 : forall l2 r1 r2,
  ~ In x l1 -> ~ In x l2 ->
  l1 ++ x :: r1 = l2 ++ x :: r2 -> l1 = l2 /\ r1 = r2.
Proof.
  induction l1 as [|a l1 IH]; intros [|b l2] r1 r2 N1 N2 E; simpl in *.
  - injection E as <-. auto.
  - injection E as -> _. tauto.
  - injection E as -> _. tauto.
  - injection E as -> E. destruct (IH l2 r1 r2) as [-> ->]; tauto.
Qed.

Lemma digits_no_minus ds : forallb is_digit ds = true -> ~ In 45%N ds.
Proof.
  intros D I. rewrite forallb_forall in D.
  exact (digit_not_minus _ (D _ I) eq_refl).
Qed.

Variable R : Runtime.

(** The digits of an integer id end at the first hyphen of the key. *)
Lemma integer_key_inj (n m : Z) (a b : str) :
  raw_key R (JInt n) (JStr a) = raw_key R (JInt m) (JStr b) ->
  n = m /\ a = b.
Proof.
  unfold raw_key. cbn [py_format]. change (lit "-") with [45%N].
  destruct (str_of_int_spec n) as (dn & Nn & Dn & Pn & Mn).
  destruct (str_of_int_spec m) as (dm & Nm & Dm & Pm & Mm).
  pose proof (digits_no_minus _ Dn) as In_n.
  pose proof (digits_no_minus _ Dm) as In_m.
  destruct (Z.lt_ge_cases n 0) as [Ln|Gn];
    destruct (Z.lt_ge_cases m 0) as [Lm|Gm].
  - destruct (Mn Ln) as [-> Vn]. destruct (Mm Lm) as [-> Vm].
    cbn [app]. intros [= E].
    destruct (split_at_first _ _ _ _ _ In_n In_m E) as [-> ->].
    split; [lia|reflexivity].
  - destruct (Mn Ln) as [-> Vn]. destruct (Pm Gm) as [-> Vm].
    destruct dm as [|c dm]; [congruence|].
    cbn [app]. intros [= <- _]. exfalso. apply In_m. left. reflexivity.
  - destruct (Pn Gn) as [-> Vn]. destruct (Mm Lm) as [-> Vm].
    destruct dn as [|c dn]; [congruence|].
    cbn [app]. intros [= -> _]. exfalso. apply In_n. left. reflexivity.
  - destruct (Pn Gn) as [-> Vn]. destruct (Pm Gm) as [-> Vm].
    intros E.
    destruct (split_at_first _ _ _ _ _ In_n In_m E) as [-> ->].
    split; [lia|reflexivity].
Qed.

(** X2. For integer track ids and string aliases the key
    ["{mid}-{alias}"] tells the pair: two pairs with the same key are
    the same pair, so they get the same id only if they are the same
    pair or MD5 collides. *)
Theorem integer_key_tells_the_pair (n m : Z) (a b : str) :
  raw_key R (JInt n) (JStr a) = raw_key R (JInt m) (JStr b) ->
  n = m /\ a = b.
Proof. apply integer_key_inj. Qed.

(** X3. The id is made from the text of the key alone, so pairs that
    spell the same key get the same id: a hyphen can move between a
    string [mid] and the alias, and an integer [mid] is not told from
    the string of its digits. *)
Theorem same_key_text_same_id (a b c : str) (n : Z) (alias : json) :
  generate_uuid R (JStr (a ++ lit "-" ++ b)) (JStr c) =
    generate_uuid R (JStr a) (JStr (b ++ lit "-" ++ c)) /\
  generate_uuid R (JInt n) alias =
    generate_uuid R (JStr (str_of_int n)) alias.
Proof.
  split; [|reflexivity].
  unfold generate_uuid, raw_key. cbn [py_format].
  rewrite <- !app_assoc. reflexivity.
Qed.

End Keys.

Section Utf8.

Lemma land_shiftl_low a b k :
  0 <= k -> 0 <= b < 2 ^ k -> Z.land (Z.shiftl a k) b = 0.
Proof.
  intros K [Lo Hi]. apply Z.bits_inj'. intros n Hn.
  rewrite Z.land_spec, Z.bits_0.
  destruct (Z.lt_ge_cases n k) as [L|G].
  - rewrite Z.shiftl_spec_low by assumption. reflexivity.
  - destruct (Z.eq_dec b 0) as [->|NZ].
    + rewrite Z.bits_0. apply andb_false_r.
    + assert (Lg : Z.log2 b < n).
      { apply Z.lt_le_trans with k; [apply Z.log2_lt_pow2; lia|lia]. }
      rewrite (Z.bits_above_log2 b n Lo Lg). apply andb_false_r.
Qed.

(** A prefix with its low [k] bits clear, or-ed with [k] payload bits,
    is their sum; masking gives the payload back. *)
Lemma lor_prefix P g k :
  0 <= k -> P mod 2 ^ k = 0 -> 0 <= g < 2 ^ k -> Z.lor P g = P + g.
Proof.
  intros K M G.
  assert (E : P = Z.shiftl (P / 2 ^ k) k).
  { rewrite Z.shiftl_mul_pow2 by assumption.
    pose proof (Z.div_mod P (2 ^ k) ltac:(lia)). lia. }
  rewrite E at 1.
  rewrite <- Z.lxor_lor by (apply land_shiftl_low; assumption).
  rewrite <- Z.add_nocarry_lxor by (apply land_shiftl_low; assumption).
  rewrite <- E. reflexivity.
Qed.

Lemma land_prefix P g k :
  0 <= k -> P mod 2 ^ k = 0 -> 0 <= g < 2 ^ k ->
  Z.land (Z.lor P g) (Z.ones k) = g.
Proof.
  intros K M G. rewrite (lor_prefix P g k K M G), Z.land_ones by assumption.
  rewrite Z.add_mod, M by lia. simpl. rewrite Z.mod_mod by lia.
  apply Z.mod_small, G.
Qed.

Lemma lor_shiftl_add a b k :
  0 <= k -> 0 <= b < 2 ^ k -> Z.lor (Z.shiftl a k) b = a * 2 ^ k + b.
Proof.
  intros K B.
  rewrite <- Z.lxor_lor by (apply land_shiftl_low; assumption).
  rewrite <- Z.add_nocarry_lxor by (apply land_shiftl_low; assumption).
  rewrite Z.shiftl_mul_pow2 by assumption. reflexivity.
Qed.

Lemma six_bits z k : 0 <= k -> Z.land (Z.shiftr z k) 63 = (z / 2 ^ k) mod 64.
Proof.
  intros K. rewrite Z.shiftr_div_pow2 by assumption.
  apply (Z.land_ones _ 6). lia.
Qed.

Lemma some_eq {A} (x y : A) : Some x = Some y -> x = y.
Proof. congruence. Qed.

Ltac open_app rest :=
  match goal with
  | |- context [[?a; ?b; ?c; ?d] ++ rest] =>
      change ([a; b; c; d] ++ rest) with (a :: b :: c :: d :: rest)
  | |- context [[?a; ?b; ?c] ++ rest] =>
      change ([a; b; c] ++ rest) with (a :: b :: c :: rest)
  | |- context [[?a; ?b] ++ rest] =>
      change ([a; b] ++ rest) with (a :: b :: rest)
  | |- context [[?a] ++ rest] => change ([a] ++ rest) with (a :: rest)
  end.

Lemma decode_1 b0 rest :
  b0 < 128 -> utf8_decode_char (b0 :: rest) = Some (Z.to_N b0, rest).
Proof.
  intros H. unfold utf8_decode_char.
  destruct (Z.ltb_spec b0 128); [reflexivity|lia].
Qed.

Lemma decode_2 b0 b1 rest :
  192 <= b0 < 224 ->
  utf8_decode_char (b0 :: b1 :: rest) =
    Some (Z.to_N (Z.lor (Z.shiftl (Z.land b0 31) 6) (Z.land b1 63)), rest).
Proof.
  intros H. unfold utf8_decode_char.
  destruct (Z.ltb_spec b0 128); [lia|].
  destruct (Z.ltb_spec b0 192); [lia|].
  destruct (Z.ltb_spec b0 224); [reflexivity|lia].
Qed.

Lemma decode_3 b0 b1 b2 rest :
  224 <= b0 < 240 ->
  utf8_decode_char (b0 :: b1 :: b2 :: rest) =
    Some (Z.to_N (Z.lor (Z.shiftl (Z.land b0 15) 12)
                    (Z.lor (Z.shiftl (Z.land b1 63) 6) (Z.land b2 63))),
          rest).
Proof.
  intros H. unfold utf8_decode_char.
  destruct (Z.ltb_spec b0 128); [lia|].
  destruct (Z.ltb_spec b0 192); [lia|].
  destruct (Z.ltb_spec b0 224); [lia|].
  destruct (Z.ltb_spec b0 240); [reflexivity|lia].
Qed.

Lemma decode_4 b0 b1 b2 b3 rest :
  240 <= b0 ->
  utf8_decode_char (b0 :: b1 :: b2 :: b3 :: rest) =
    Some (Z.to_N (Z.lor (Z.shiftl (Z.land b0 7) 18)
                    (Z.lor (Z.shiftl (Z.land b1 63) 12)
                       (Z.lor (Z.shiftl (Z.land b2 63) 6) (Z.land b3 63)))),
          rest).
Proof.
  intros H. unfold utf8_decode_char.
  destruct (Z.ltb_spec b0 128); [lia|].
  destruct (Z.ltb_spec b0 192); [lia|].
  destruct (Z.ltb_spec b0 224); [lia|].
  destruct (Z.ltb_spec b0 240); [lia|reflexivity].
Qed.

(** The bytes of a code point, whatever follows them, read back as the
    code point. *)
Lemma utf8_char_decodes c bs rest :
  utf8_char c = Some bs ->
  bs <> [] /\ utf8_decode_char (bs ++ rest) = Some (c, rest).
Proof.
  unfold utf8_char. set (z := Z.of_N c).
  assert (Zc : Z.to_N z = c) by apply N2Z.id.
  assert (Z0 : 0 <= z) by apply N2Z.is_nonneg.
  assert (M0 : 0 <= z mod 64 < 64) by (apply Z.mod_pos_bound; lia).
  assert (M1 : 0 <= (z / 64) mod 64 < 64) by (apply Z.mod_pos_bound; lia).
  assert (M2 : 0 <= (z / 4096) mod 64 < 64) by (apply Z.mod_pos_bound; lia).
  assert (L0 : Z.land z 63 = z mod 64) by (apply (Z.land_ones _ 6); lia).
  assert (L1 : Z.land (Z.shiftr z 6) 63 = (z / 64) mod 64)
    by (apply (six_bits z 6); lia).
  assert (L2 : Z.land (Z.shiftr z 12) 63 = (z / 4096) mod 64)
    by (apply (six_bits z 12); lia).
  assert (C0 : Z.land (Z.lor 128 (z mod 64)) 63 = z mod 64)
    by (apply (land_prefix 128 _ 6); [lia|reflexivity|exact M0]).
  assert (C1 : Z.land (Z.lor 128 ((z / 64) mod 64)) 63 = (z / 64) mod 64)
    by (apply (land_prefix 128 _ 6); [lia|reflexivity|exact M1]).
  assert (C2 : Z.land (Z.lor 128 ((z / 4096) mod 64)) 63 = (z / 4096) mod 64)
    by (apply (land_prefix 128 _ 6); [lia|reflexivity|exact M2]).
  assert (D1 : z / 64 / 64 = z / 4096)
    by (rewrite Z.div_div by lia; reflexivity).
  assert (D2 : z / 4096 / 64 = z / 262144)
    by (rewrite Z.div_div by lia; reflexivity).
  pose proof (Z.div_mod z 64 ltac:(lia)) as E0.
  pose proof (Z.div_mod (z / 64) 64 ltac:(lia)) as E1.
  pose proof (Z.div_mod (z / 4096) 64 ltac:(lia)) as E2.
  rewrite D1 in E1. rewrite D2 in E2.
  rewrite L0, L1, L2.
  destruct (Z.ltb_spec z 128) as [B1|B1].
  { intros H; apply some_eq in H; subst bs. split; [discriminate|].
    open_app rest. rewrite decode_1 by exact B1. rewrite Zc. reflexivity. }
  destruct (Z.ltb_spec z 2048) as [B2|B2].
  { intros H; apply some_eq in H; subst bs. split; [discriminate|].
    assert (G : 0 <= z / 64 < 32)
      by (split; [apply Z.div_pos|apply Z.div_lt_upper_bound]; lia).
    rewrite Z.shiftr_div_pow2 by lia. change (2 ^ 6) with 64.
    assert (P : Z.lor 192 (z / 64) = 192 + z / 64)
      by (apply (lor_prefix 192 _ 5); [lia|reflexivity|exact G]).
    assert (Q : Z.land (Z.lor 192 (z / 64)) 31 = z / 64)
      by (apply (land_prefix 192 _ 5); [lia|reflexivity|exact G]).
    open_app rest. rewrite decode_2 by (rewrite P; lia). rewrite Q, C0.
    rewrite (lor_shiftl_add _ _ 6) by (try lia; exact M0).
    replace (z / 64 * 2 ^ 6 + z mod 64) with z by lia.
    rewrite Zc. reflexivity. }
  destruct (Z.ltb_spec z 65536) as [B3|B3].
  { destruct (is_surrogate z); [discriminate|].
    intros H; apply some_eq in H; subst bs. split; [discriminate|].
    assert (G : 0 <= z / 4096 < 16)
      by (split; [apply Z.div_pos|apply Z.div_lt_upper_bound]; lia).
    rewrite Z.shiftr_div_pow2 by lia. change (2 ^ 12) with 4096.
    assert (P : Z.lor 224 (z / 4096) = 224 + z / 4096)
      by (apply (lor_prefix 224 _ 4); [lia|reflexivity|exact G]).
    assert (Q : Z.land (Z.lor 224 (z / 4096)) 15 = z / 4096)
      by (apply (land_prefix 224 _ 4); [lia|reflexivity|exact G]).
    open_app rest. rewrite decode_3 by (rewrite P; lia). rewrite Q, C1, C0.
    rewrite (lor_shiftl_add ((z / 64) mod 64) _ 6) by (try lia; exact M0).
    rewrite (lor_shiftl_add _ _ 12) by (change (2 ^ 12) with 4096; lia).
    replace (z / 4096 * 2 ^ 12 + ((z / 64) mod 64 * 2 ^ 6 + z mod 64))
      with z by lia.
    rewrite Zc. reflexivity. }
  destruct (Z.ltb_spec z 1114112) as [B4|B4]; [|discriminate].
  intros H; apply some_eq in H; subst bs. split; [discriminate|].
  assert (G : 0 <= z / 262144 < 8)
    by (split; [apply Z.div_pos|apply Z.div_lt_upper_bound]; lia).
  rewrite Z.shiftr_div_pow2 by lia. change (2 ^ 18) with 262144.
  assert (P : Z.lor 240 (z / 262144) = 240 + z / 262144)
    by (apply (lor_prefix 240 _ 3); [lia|reflexivity|exact G]).
  assert (Q : Z.land (Z.lor 240 (z / 262144)) 7 = z / 262144)
    by (apply (land_prefix 240 _ 3); [lia|reflexivity|exact G]).
  open_app rest. rewrite decode_4 by (rewrite P; lia). rewrite Q, C2, C1, C0.
  rewrite (lor_shiftl_add ((z / 64) mod 64) _ 6) by (try lia; exact M0).
  rewrite (lor_shiftl_add ((z / 4096) mod 64) _ 12)
    by (change (2 ^ 12) with 4096; lia).
  rewrite (lor_shiftl_add _ _ 18) by (change (2 ^ 18) with 262144; lia).
  replace (z / 262144 * 2 ^ 18 +
           ((z / 4096) mod 64 * 2 ^ 12 +
            ((z / 64) mod 64 * 2 ^ 6 + z mod 64))) with z by lia.
  rewrite Zc. reflexivity.
Qed.

Lemma utf8_encode_decodes s : forall bs fuel,
  utf8_encode s = Some bs ->
  (length s <= fuel)%nat ->
  utf8_decode fuel bs = Some s.
Proof.
  induction s as [|c s IH]; intros bs fuel E F.
  - injection E as <-. destruct fuel; reflexivity.
  - cbn [utf8_encode] in E.
    destruct (utf8_char c) as [bc|] eqn:Ec; [|discriminate].
    destruct (utf8_encode s) as [more|] eqn:Es; [|discriminate].
    injection E as <-.
    destruct (utf8_char_decodes c bc more Ec) as [N D].
    destruct fuel as [|fuel]; [simpl in F; lia|].
    destruct bc as [|b0 bc]; [congruence|].
    cbn [app utf8_decode]. cbn [app] in D. rewrite D.
    rewrite (IH more fuel eq_refl); [reflexivity|simpl in F; lia].
Qed.

Lemma utf8_char_some_scalar c bs : utf8_char c = Some bs -> scalar c = true.
Proof.
  unfold utf8_char, scalar, is_surrogate.
  destruct (Z.ltb_spec (Z.of_N c) 128);
    [|destruct (Z.ltb_spec (Z.of_N c) 2048);
      [|destruct (Z.ltb_spec (Z.of_N c) 65536);
        [destruct ((55296 <=? Z.of_N c) && (Z.of_N c <=? 57343));
         [discriminate|]
        |destruct (Z.ltb_spec (Z.of_N c) 1114112); [|discriminate]]]];
    intros _; apply andb_true_intro;
    (split;
     [first [reflexivity|apply Z.ltb_lt; lia]
     |apply negb_true_iff;
      first [reflexivity
            |apply andb_false_intro1, Z.leb_gt; lia
            |apply andb_false_intro2, Z.leb_gt; lia]]).
Qed.

(** X4. [raw.encode('utf-8')] succeeds exactly on the strings without
    a lone surrogate (and without a code point past U+10FFFF), so
    [generate_uuid] raises [UnicodeEncodeError] exactly on the keys
    that hold one. *)
Theorem encodes_iff_well_formed (R : Runtime) (mid alias : json) :
  (forall s, (exists bs, utf8_encode s = Some bs) <-> well_formed s = true) /\
  (generate_uuid R mid alias = Raise UnicodeEncodeError <->
   well_formed (raw_key R mid alias) = false).
Proof.
  assert (Iff : forall s,
            (exists bs, utf8_encode s = Some bs) <-> well_formed s = true).
  { intros s. split; [|apply utf8_encode_well_formed].
    induction s as [|c s IH]; intros (bs & E); [reflexivity|].
    cbn [utf8_encode] in E.
    destruct (utf8_char c) as [bc|] eqn:Ec; [|discriminate].
    destruct (utf8_encode s) as [more|] eqn:Es; [|discriminate].
    cbn [well_formed forallb]. rewrite (utf8_char_some_scalar c bc Ec).
    apply IH. eauto. }
  split; [exact Iff|].
  destruct (utf8_encode (raw_key R mid alias)) as [bytes|] eqn:E.
  - destruct (generate_uuid_digest R mid alias bytes E) as (-> & _ & _).
    assert (WF : well_formed (raw_key R mid alias) = true)
      by (apply Iff; eauto).
    rewrite WF. split; discriminate.
  - unfold generate_uuid. rewrite E. split; [|reflexivity].
    intros _. destruct (well_formed (raw_key R mid alias)) eqn:WF;
      [|reflexivity].
    apply Iff in WF. destruct WF as (bs & E'). congruence.
Qed.

(** X5. The UTF-8 bytes of a key read back as the key: decoding what
    [encode] wrote gives the string again, so two strings with the
    same bytes are the same string. *)
Theorem utf8_bytes_read_back (s : str) (bs : list Z) :
  utf8_encode s = Some bs ->
  utf8_decode (length s) bs = Some s /\
  forall s', utf8_encode s' = Some bs -> s' = s.
Proof.
  intros E. split; [apply utf8_encode_decodes; auto|].
  intros s' E'.
  pose proof (utf8_encode_decodes s bs (Nat.max (length s) (length s')) E
                (Nat.le_max_l _ _)) as D.
  pose proof (utf8_encode_decodes s' bs (Nat.max (length s) (length s')) E'
                (Nat.le_max_r _ _)) as D'.
  congruence.
Qed.

(** X6. For integer track ids and string aliases, two different
    (mid, alias) pairs never hand the same bytes to MD5: their ids can
    only coincide through a collision of the digest. *)
Theorem integer_key_bytes_tell_the_pair (R : Runtime) (n m : Z) (a b : str)
    (bytes : list Z) :
  utf8_encode (raw_key R (JInt n) (JStr a)) = Some bytes ->
  utf8_encode (raw_key R (JInt m) (JStr b)) = Some bytes ->
  n = m /\ a = b.
Proof.
  intros E1 E2. apply (integer_key_inj R).
  pose proof (utf8_encode_decodes _ bytes
                (Nat.max (length (raw_key R (JInt n) (JStr a)))
                         (length (raw_key R (JInt m) (JStr b))))
                E1 (Nat.le_max_l _ _)) as D1.
  pose proof (utf8_encode_decodes _ bytes
                (Nat.max (length (raw_key R (JInt n) (JStr a)))
                         (length (raw_key R (JInt m) (JStr b))))
                E2 (Nat.le_max_r _ _)) as D2.
  congruence.
Qed.

End Utf8.

(** ** The shape of an id *)

Section IdShape.

Lemma hex_char_lower d : 0 <= d < 16 -> is_lower_hex (MD5.hex_char d) = true.
Proof.
  intros H.
  assert (C : d = 0 \/ d = 1 \/ d = 2 \/ d = 3 \/ d = 4 \/ d = 5 \/ d = 6 \/
              d = 7 \/ d = 8 \/ d = 9 \/ d = 10 \/ d = 11 \/ d = 12 \/
              d = 13 \/ d = 14 \/ d = 15) by lia.
  repeat (destruct C as [->|C]; [reflexivity|]). subst d. reflexivity.
Qed.

Lemma hex_byte_lower b :
  UUID.octet b -> forallb is_lower_hex (MD5.hex_byte b) = true.
Proof.
  intros [Lo Hi]. unfold MD5.hex_byte. cbn [forallb].
  rewrite !hex_char_lower; [reflexivity| |].
  - apply Z.mod_pos_bound. lia.
  - split; [apply Z.div_pos; lia|apply Z.div_lt_upper_bound; lia].
Qed.

Lemma hex_of_lower b :
  Forall UUID.octet b -> forallb is_lower_hex (UUID.hex_of b) = true.
Proof.
  induction 1 as [|x b Hx Hb IH]; [reflexivity|].
  unfold UUID.hex_of in *. cbn [flat_map].
  rewrite forallb_app, (hex_byte_lower x Hx), IH. reflexivity.
Qed.

Lemma canonical_shaped b :
  Forall UUID.octet b -> length b = 16%nat ->
  uuid_shaped (UUID.canonical b) = true.
Proof.
  intros F L.
  do 16 (destruct b as [|? b]; [discriminate|]).
  destruct b; [|discriminate].
  pose proof (hex_of_lower _ F) as H.
  unfold UUID.hex_of in H. cbn [flat_map MD5.hex_byte app forallb] in H.
  repeat match type of H with
         | (_ && _) = true => apply andb_prop in H; destruct H as [? H]
         end.
  unfold uuid_shaped, UUID.canonical, UUID.hex_of, UUID.slice.
  change (lit "-") with [45%N].
  cbn [firstn skipn flat_map MD5.hex_byte app length Nat.eqb Nat.sub nth
       forallb].
  repeat match goal with
         | E : is_lower_hex ?x = true |- context [is_lower_hex ?x] =>
             rewrite E
         end.
  reflexivity.
Qed.

(** X7. Every id the script makes has the shape the vector store asks
    of a string id: 36 characters, hyphens at positions 8, 13, 18 and
    23, lower-case hex digits elsewhere. *)
Theorem id_is_uuid_shaped (R : Runtime) (mid alias : json) (u : str) :
  generate_uuid R mid alias = Ok u -> uuid_shaped u = true.
Proof.
  intros G.
  destruct (utf8_encode (raw_key R mid alias)) as [bytes|] eqn:E.
  - destruct (generate_uuid_digest R mid alias bytes E) as (G' & _ & _).
    rewrite G' in G. apply (f_equal (fun r => match r with
                                             | Ok x => x
                                             | Raise _ => []
                                             end)) in G.
    cbv beta iota in G. subst u.
    apply canonical_shaped; [apply digest_octets|reflexivity].
  - unfold generate_uuid in G. rewrite E in G. discriminate.
Qed.

End IdShape.

(** ** More on the embedding client *)

Section EmbeddingMore.
Variable W : World.
Variable key : str.

(** X8. [get_embedding] sends exactly one request, whatever comes back:
    a POST to the embedding URL carrying the model name and the text
    unchanged.  There is no retry; after a status other than 200 it
    only prints the response text. *)
Theorem get_embedding_one_request (h : trace) (txt : json) :
  let t := snd (get_embedding W key txt h) in
  post_event W key h txt =
    EvPost SILICONFLOW_API_URL
      (JObj [ (lit "model", JStr (lit "BAAI/bge-m3")); (lit "input", txt) ])
      [ (lit "Authorization", lit "Bearer " ++ key);
        (lit "Content-Type", lit "application/json") ]
      (post_answer W key h txt) /\
  posts t = [txt] /\
  match post_answer W key h txt with
  | Ok resp =>
      if status_code resp =? 200 then t = [post_event W key h txt]
      else t = [post_event W key h txt;
                EvPrint (LogEmbeddingError (text resp))]
  | Raise _ => t = [post_event W key h txt]
  end.
Proof.
  cbv zeta. split; [reflexivity|].
  split; [apply get_embedding_quiet|].
  rewrite get_embedding_run.
  destruct (post_answer W key h txt) as [resp|e]; [|reflexivity].
  destruct (status_code resp =? 200); reflexivity.
Qed.

(** X9. What [get_embedding] raises.  A failing request raises as it
    is.  On a 200 answer: a body that is not JSON raises
    [JSONDecodeError]; a JSON body that is not an object raises
    [AttributeError]; a truthy [data] that is a number or [true] raises
    [TypeError], a non-empty object [KeyError]; a first element that is
    not an object raises [TypeError], one without [embedding]
    [KeyError].  Nothing is printed in any of these cases. *)
Theorem get_embedding_raises (h : trace) (txt : json) :
  (forall e,
     post_answer W key h txt = Raise e ->
     get_embedding W key txt h = (Raise e, [post_event W key h txt])) /\
  (forall resp,
     post_answer W key h txt = Ok resp ->
     status_code resp = 200 ->
     let out := get_embedding W key txt h in
     snd out = [post_event W key h txt] /\
     (body resp = None -> fst out = Raise JSONDecodeError) /\
     (forall j, body resp = Some j -> is_object j = false ->
        fst out = Raise AttributeError) /\
     (forall fields d,
        body resp = Some (JObj fields) ->
        lookup (lit "data") fields = Some d ->
        truthy d = true ->
        match d with
        | JArr (JObj first :: _) =>
            lookup (lit "embedding") first = None -> fst out = Raise KeyError
        | JObj _ => fst out = Raise KeyError
        | _ => fst out = Raise TypeError
        end)).
Proof.
  split.
  - intros e A. rewrite get_embedding_run, A. reflexivity.
  - intros resp A S out. subst out. rewrite get_embedding_run, A, S.
    cbn [Z.eqb Pos.eqb fst snd]. split; [reflexivity|].
    unfold read_embedding. split; [|split].
    + intros ->. reflexivity.
    + intros j -> O. destruct j; try reflexivity. discriminate O.
    + intros fields d -> -> T. rewrite T.
      destruct d as [|[|]|n|f|[|c s]|[|x l]|[|kv l]]; try discriminate T;
        try reflexivity.
      destruct x; try reflexivity.
      intros N. cbn [getitem_0 getitem_key fst]. rewrite N. reflexivity.
Qed.

End EmbeddingMore.

(** ** More on indexing one track *)

Section IndexingMore.
Variable R : Runtime.
Variable W : World.
Variable key : str.

(** The requests of the loop follow the aliases in order, up to the
    alias on which it raised. *)
Lemma index_aliases_posts mid aliases : forall pts h,
  (exists k, posts (snd (index_aliases R W key mid aliases pts h)) =
             firstn k aliases) /\
  (forall pts', fst (index_aliases R W key mid aliases pts h) = Ok pts' ->
                posts (snd (index_aliases R W key mid aliases pts h)) =
                  aliases).
Proof.
  induction aliases as [|alias rest IH]; intros pts h.
  - split; [exists 0%nat; reflexivity|reflexivity].
  - pose proof (index_aliases_cases R W key mid alias rest pts h) as C.
    destruct (get_embedding_quiet W key h alias) as (_ & _ & P).
    destruct (get_embedding W key alias h) as [[v|e] t]; cbn [snd] in P.
    + assert (Go : forall pts0,
                index_aliases R W key mid (alias :: rest) pts h =
                  (fst (index_aliases R W key mid rest pts0 (h ++ t)),
                   t ++ snd (index_aliases R W key mid rest pts0 (h ++ t))) ->
                (exists k, posts (snd (index_aliases R W key mid
                                         (alias :: rest) pts h)) =
                           firstn k (alias :: rest)) /\
                (forall pts',
                   fst (index_aliases R W key mid (alias :: rest) pts h) =
                     Ok pts' ->
                   posts (snd (index_aliases R W key mid (alias :: rest)
                                 pts h)) = alias :: rest)).
      { intros pts0 E. rewrite E. cbn [fst snd]. rewrite posts_app, P.
        destruct (IH pts0 (h ++ t)) as [(k & Hk) Hall]. split.
        - exists (S k). simpl. rewrite Hk. reflexivity.
        - intros pts' Hr. simpl. rewrite (Hall _ Hr). reflexivity. }
      assert (Stop : forall e,
                index_aliases R W key mid (alias :: rest) pts h =
                  (Raise e, t) ->
                (exists k, posts (snd (index_aliases R W key mid
                                         (alias :: rest) pts h)) =
                           firstn k (alias :: rest)) /\
                (forall pts',
                   fst (index_aliases R W key mid (alias :: rest) pts h) =
                     Ok pts' ->
                   posts (snd (index_aliases R W key mid (alias :: rest)
                                 pts h)) = alias :: rest)).
      { intros e E. rewrite E. cbn [fst snd]. rewrite P. split.
        - exists 1%nat. reflexivity.
        - discriminate. }
      destruct (truthy v);
        [destruct (generate_uuid R mid alias);
         [destruct (validate_vector R v)|]|]; eauto.
    + rewrite C. cbn [fst snd]. rewrite P. split.
      * exists 1%nat. reflexivity.
      * discriminate.
Qed.

Lemma subsequence_length {A} (k l : list A) :
  subsequence k l -> (length k <= length l)%nat.
Proof. induction 1; simpl; lia. Qed.

(** The points the loop adds are those of a selection of the aliases,
    in order. *)
Lemma index_aliases_batch mid aliases : forall pts h pts',
  fst (index_aliases R W key mid aliases pts h) = Ok pts' ->
  exists kept new,
    pts' = pts ++ new /\
    subsequence kept aliases /\
    map point_payload new = map (alias_payload mid) kept /\
    map (fun p => Ok (point_id p)) new = map (generate_uuid R mid) kept.
Proof.
  induction aliases as [|alias rest IH]; intros pts h pts'.
  - simpl. intros [= <-]. exists [], []. rewrite app_nil_r.
    repeat split. constructor.
  - pose proof (index_aliases_cases R W key mid alias rest pts h) as C.
    destruct (get_embedding W key alias h) as [[v|e] t];
      [|rewrite C; discriminate].
    destruct (truthy v).
    + destruct (generate_uuid R mid alias) as [u|e] eqn:U;
        [|rewrite C; discriminate].
      destruct (validate_vector R v) as [w|]; [|rewrite C; discriminate].
      rewrite C. cbn [fst]. intros Hr.
      destruct (IH _ _ _ Hr) as (kept & new & -> & Sub & Pay & Ids).
      exists (alias :: kept), (Point u w (alias_payload mid alias) :: new).
      split; [rewrite <- app_assoc; reflexivity|].
      split; [constructor; exact Sub|].
      split; simpl; [rewrite Pay|rewrite Ids, U]; reflexivity.
    + rewrite C. cbn [fst]. intros Hr.
      destruct (IH _ _ _ Hr) as (kept & new & -> & Sub & Pay & Ids).
      exists kept, new. split; [reflexivity|].
      split; [constructor; exact Sub|]. auto.
Qed.

(** A call of [index_song] that upserts: the track was fetched with
    status 200, the loop ran over all its aliases and returned the
    batch, and the upsert is the last event. *)
Lemma index_song_upsert mid h :
  upserts (snd (index_song R W key mid h)) = [] \/
  exists resp items pts t2,
    let ev := EvGet (song_url R mid) (Ok resp) in
    let u := client_upsert W ((h ++ [ev]) ++ t2) COLLECTION_NAME pts in
    requests_get W h (song_url R mid) = Ok resp /\
    status_code resp = 200 /\
    track_aliases resp = Ok (Some items) /\
    index_aliases R W key mid items [] (h ++ [ev]) = (Ok pts, t2) /\
    pts <> [] /\
    snd (index_song R W key mid h) =
      ev :: t2 ++ [EvUpsert COLLECTION_NAME pts u].
Proof.
  rewrite index_song_run. cbv zeta.
  destruct (requests_get W h (song_url R mid)) as [resp|e] eqn:G;
    [|left; reflexivity].
  destruct (status_code resp =? 404); [left; reflexivity|].
  destruct (Z.eqb_spec (status_code resp) 200) as [S|S];
    [|left; reflexivity].
  destruct (track_aliases resp) as [[items|]|e] eqn:TA;
    try (left; reflexivity).
  pose proof (index_aliases_quiet R W key mid items []
                (h ++ [EvGet (song_url R mid) (Ok resp)])) as [Q _].
  destruct (index_aliases R W key mid items []
              (h ++ [EvGet (song_url R mid) (Ok resp)]))
    as [[pts|e] t2] eqn:L; cbn [snd] in Q.
  - destruct pts as [|p pts]; [left; simpl; exact Q|].
    right. exists resp, items, (p :: pts), t2. cbv zeta.
    repeat split; auto. discriminate.
  - left. simpl. exact Q.
Qed.

(** X10. A track answered with a status other than 200 and 404 gives
    0: [index_song] prints the status and returns, without any
    embedding request or upsert, and the loop of [main] goes on from
    the same total. *)
Theorem api_error_contributes_nothing (mid : json) (h : trace)
    (resp : response) :
  requests_get W h (song_url R mid) = Ok resp ->
  status_code resp <> 200 ->
  status_code resp <> 404 ->
  let t := [ EvGet (song_url R mid) (Ok resp);
             EvPrint (LogApiError mid (status_code resp)) ] in
  index_song R W key mid h = (Ok 0, t) /\
  forall rest total,
    main_loop R W key (mid :: rest) total h =
      (fst (main_loop R W key rest total (h ++ t)),
       t ++ snd (main_loop R W key rest total (h ++ t))).
Proof.
  intros G S2 S4 t.
  assert (E : index_song R W key mid h = (Ok 0, t)).
  { rewrite index_song_run. cbv zeta. rewrite G.
    destruct (Z.eqb_spec (status_code resp) 404); [contradiction|].
    destruct (Z.eqb_spec (status_code resp) 200); [contradiction|].
    reflexivity. }
  split; [exact E|].
  intros rest total. rewrite main_loop_cons. cbv zeta.
  rewrite main_step_run, E. cbn [fst snd Z.ltb Z.compare].
  replace (total + upserted t) with total by (unfold t; simpl; lia).
  reflexivity.
Qed.

(** X11. When the request for a track's aliases raises (no connection,
    a timeout), [index_song] raises after that one call; the loop of
    [main] prints the error with the id and goes on from the same
    total. *)
Theorem fetch_failure_is_logged_and_skipped (mid : json) (h : trace)
    (e : exn) :
  requests_get W h (song_url R mid) = Raise e ->
  let ev := EvGet (song_url R mid) (Raise e) in
  index_song R W key mid h = (Raise e, [ev]) /\
  forall total,
    main_step R W key mid total h =
      (Ok total, [ev; EvPrint (LogIndexError mid e)]).
Proof.
  intros G ev.
  assert (E : index_song R W key mid h = (Raise e, [ev])).
  { rewrite index_song_run. cbv zeta. rewrite G. reflexivity. }
  split; [exact E|].
  intros total. rewrite main_step_run, E. reflexivity.
Qed.

(** X12. A track answered 200 without usable aliases costs one
    request and nothing else.  An object whose [aliases] is absent or
    falsy (null, empty list, empty string, 0) gives 0; a body that is
    not JSON raises [JSONDecodeError], a JSON body that is not an
    object [AttributeError], a truthy [aliases] that cannot be iterated
    (a number, [true]) [TypeError]. *)
Theorem no_aliases_no_requests (mid : json) (h : trace) (resp : response) :
  requests_get W h (song_url R mid) = Ok resp ->
  status_code resp = 200 ->
  let out := index_song R W key mid h in
  (forall fields,
     body resp = Some (JObj fields) ->
     match lookup (lit "aliases") fields with
     | None => True
     | Some a => truthy a = false
     end ->
     out = (Ok 0, [EvGet (song_url R mid) (Ok resp)])) /\
  (body resp = None ->
   out = (Raise JSONDecodeError, [EvGet (song_url R mid) (Ok resp)])) /\
  (forall j,
     body resp = Some j -> is_object j = false ->
     out = (Raise AttributeError, [EvGet (song_url R mid) (Ok resp)])) /\
  (forall fields a,
     body resp = Some (JObj fields) ->
     lookup (lit "aliases") fields = Some a ->
     truthy a = true ->
     iterate a = Raise TypeError ->
     out = (Raise TypeError, [EvGet (song_url R mid) (Ok resp)])).
Proof.
  intros G S out. subst out. rewrite index_song_run. cbv zeta.
  rewrite G, S. change (200 =? 404) with false. change (200 =? 200) with true.
  cbv beta iota. unfold track_aliases.
  split; [|split; [|split]].
  - intros fields -> A.
    destruct (lookup (lit "aliases") fields) as [a|]; [rewrite A|];
      reflexivity.
  - intros ->. reflexivity.
  - intros j -> O. destruct j; try reflexivity. discriminate O.
  - intros fields a -> -> T I. rewrite T, I. reflexivity.
Qed.

(** X13. The aliases of a track are embedded in the order of the list,
    one request each, and the upsert comes only after the last one: a
    trace that holds an upsert, or a call that returns, has sent the
    request of every alias; a call that raised has sent those of a
    prefix. *)
Theorem aliases_embedded_in_order (mid : json) (h : trace) (resp : response)
    (fields : list (str * json)) (items : list json) :
  requests_get W h (song_url R mid) = Ok resp ->
  status_code resp = 200 ->
  body resp = Some (JObj fields) ->
  lookup (lit "aliases") fields = Some (JArr items) ->
  let t := snd (index_song R W key mid h) in
  (exists k, posts t = firstn k items) /\
  (upserts t <> [] -> posts t = items) /\
  (forall n, fst (index_song R W key mid h) = Ok n -> posts t = items).
Proof.
  intros G S B L t. subst t.
  rewrite index_song_run. cbv zeta. rewrite G, S.
  change (200 =? 404) with false. change (200 =? 200) with true.
  cbv beta iota. unfold track_aliases. rewrite B, L.
  destruct items as [|a items].
  { cbn. repeat split; auto. exists 0%nat. reflexivity. }
  cbn [truthy iterate].
  set (ev := EvGet (song_url R mid) (Ok resp)).
  destruct (index_aliases_posts mid (a :: items) [] (h ++ [ev]))
    as [(k & Hk) Hall].
  pose proof (index_aliases_quiet R W key mid (a :: items) [] (h ++ [ev]))
    as [Q _].
  destruct (index_aliases R W key mid (a :: items) [] (h ++ [ev]))
    as [[pts|e] t2]; cbn [fst snd] in *.
  - specialize (Hall pts eq_refl).
    destruct pts as [|p pts]; cbn [fst snd posts].
    + rewrite Hall. repeat split; auto. exists (length (a :: items)).
      rewrite firstn_all. reflexivity.
    + rewrite posts_app, Hall. cbn [posts]. rewrite app_nil_r.
      repeat split; auto. exists (length (a :: items)).
      rewrite firstn_all. reflexivity.
  - cbn [posts]. split; [exists k; exact Hk|]. split.
    + unfold ev. cbn [upserts]. rewrite Q. congruence.
    + discriminate.
Qed.

(** X14. The batch handed to [upsert] lists, in the order of the
    aliases, one point for each alias of a selection of them: the
    points carry the payload [{mid, alias, source: "haruki"}] and the
    id [generate_uuid(mid, alias)] of those aliases, and there are no
    more points than aliases. *)
Theorem batch_follows_the_aliases (mid : json) (h : trace) (resp : response)
    (fields : list (str * json)) (items : list json) (name : str)
    (pts : list point) (u : result unit) :
  requests_get W h (song_url R mid) = Ok resp ->
  body resp = Some (JObj fields) ->
  lookup (lit "aliases") fields = Some (JArr items) ->
  In (EvUpsert name pts u) (snd (index_song R W key mid h)) ->
  exists kept,
    subsequence kept items /\
    map point_payload pts = map (alias_payload mid) kept /\
    map (fun p => Ok (point_id p)) pts = map (generate_uuid R mid) kept /\
    (length pts <= length items)%nat.
Proof.
  intros G B L I.
  destruct (index_song_upsert mid h) as [N|(resp' & items' & pts' & t2 & D)].
  { apply in_upsert_upserts in I. rewrite N in I. destruct I. }
  cbv zeta in D. destruct D as (G' & S & TA & Loop & NE & T).
  rewrite G in G'. injection G' as <-.
  assert (items' = items).
  { unfold track_aliases in TA. rewrite B, L in TA.
    destruct items; [discriminate TA|]. cbn in TA. congruence. }
  subst items'.
  pose proof (index_aliases_quiet R W key mid items []
                (h ++ [EvGet (song_url R mid) (Ok resp)])) as [Q _].
  rewrite Loop in Q. cbn [snd] in Q.
  rewrite T in I. destruct I as [I|I]; [discriminate I|].
  apply in_app_or in I. destruct I as [I|[I|[]]].
  { apply in_upsert_upserts in I. rewrite Q in I. destruct I. }
  injection I as _ <- _.
  destruct (index_aliases_batch mid items [] _ pts'
              ltac:(rewrite Loop; reflexivity))
    as (kept & new & E & Sub & Pay & Ids).
  cbn [app] in E. subst new.
  exists kept. repeat split; auto.
  apply subsequence_length in Sub.
  rewrite <- (length_map point_payload), Pay, length_map. exact Sub.
Qed.

End IndexingMore.

(** ** More on the run as a whole *)

Section RunMore.
Variable R : Runtime.
Variable W : World.
Variable key : str.

Lemma index_song_upserted_bound mid h :
  0 <= upserted (snd (index_song R W key mid h))
    <= Z.of_nat (length (posts (snd (index_song R W key mid h)))).
Proof.
  destruct (index_song_upsert R W key mid h)
    as [N|(resp & items & pts & t2 & D)].
  { rewrite (upserts_nil_upserted _ N). lia. }
  cbv zeta in D. destruct D as (G & S & TA & Loop & NE & T).
  pose proof (index_aliases_quiet R W key mid items []
                (h ++ [EvGet (song_url R mid) (Ok resp)])) as [Q _].
  destruct (index_aliases_posts R W key mid items []
              (h ++ [EvGet (song_url R mid) (Ok resp)])) as [_ Hall].
  destruct (index_aliases_batch R W key mid items []
              (h ++ [EvGet (song_url R mid) (Ok resp)]) pts
              ltac:(rewrite Loop; reflexivity))
    as (kept & new & E & Sub & Pay & _).
  rewrite Loop in Q, Hall. cbn [fst snd] in Q, Hall.
  specialize (Hall pts eq_refl). cbn [app] in E. subst new.
  assert (Len : (length pts <= length items)%nat).
  { apply subsequence_length in Sub.
    rewrite <- (length_map point_payload), Pay, length_map. exact Sub. }
  rewrite T. cbn [upserted posts].
  rewrite upserted_app, posts_app, (upserts_nil_upserted _ Q), Hall.
  cbn [posts upserted]. rewrite app_nil_r.
  destruct (client_upsert W _ COLLECTION_NAME pts); lia.
Qed.

Lemma main_step_posts i total h :
  posts (snd (main_step R W key i total h)) =
    posts (snd (index_song R W key i h)).
Proof.
  rewrite main_step_run.
  destruct (index_song R W key i h) as [[n|e] t]; [destruct (0 <? n)|];
    cbn [snd]; rewrite ?posts_app; cbn [posts]; rewrite ?app_nil_r;
    reflexivity.
Qed.

Lemma main_loop_bound ids : forall total h,
  exists n,
    fst (main_loop R W key ids total h) = Ok n /\
    total <= n <=
      total + Z.of_nat (length (posts (snd (main_loop R W key ids total h)))).
Proof.
  induction ids as [|i rest IH]; intros total h.
  - exists total. simpl. split; [reflexivity|lia].
  - rewrite main_loop_cons. cbv zeta. cbn [fst snd].
    pose proof (index_song_upserted_bound i h) as B.
    destruct (IH (total + upserted (snd (index_song R W key i h)))
                (h ++ snd (main_step R W key i 0 h))) as (n & E & Bn).
    exists n. split; [exact E|].
    rewrite posts_app, length_app, main_step_posts. lia.
Qed.

(** X15. The total that [main] reports is never negative and never
    more than the number of embedding requests sent during the run:
    every point counted was paid for by a request of its own. *)
Theorem total_bounded_by_requests (h : trace) (t : trace) :
  main R W key h = (Ok tt, t) ->
  exists n t0,
    t = t0 ++ [EvPrint (LogComplete n)] /\
    0 <= n <= Z.of_nat (length (posts t)).
Proof.
  rewrite main_run.
  destruct (fetch_music_ids R W h) as [[ids|e] tf]; [|discriminate].
  cbv zeta. intros [= <-].
  set (found := EvPrint (LogFound (Z.of_nat (length ids)))).
  destruct (main_loop_bound ids 0 ((h ++ tf) ++ [found])) as (n & E & B).
  rewrite main_loop_total in E. injection E as E.
  rewrite E. exists n, (tf ++ found :: snd (main_loop R W key ids 0
                                              ((h ++ tf) ++ [found]))).
  split.
  - rewrite <- (app_assoc tf). reflexivity.
  - rewrite posts_app. unfold found at 1. cbn [posts].
    rewrite posts_app, !length_app. lia.
Qed.

(** X16. [main] fails in one way only: when the request for the track
    list itself raises, the exception leaves [main] at once, after the
    "Fetching" line, with no "Found" or "Complete" line.  In every
    other case [main] returns, whatever the tracks did. *)
Theorem main_raises_only_on_track_list_failure (h : trace) :
  let p := EvPrint (LogFetching MUSICS_JSON_URL) in
  match requests_get W (h ++ [p]) MUSICS_JSON_URL with
  | Raise e =>
      main R W key h = (Raise e, [p; EvGet MUSICS_JSON_URL (Raise e)])
  | Ok _ => fst (main R W key h) = Ok tt
  end.
Proof.
  cbv zeta. rewrite main_run, fetch_music_ids_run. cbv zeta.
  destruct (requests_get W _ MUSICS_JSON_URL) as [resp|e]; [|reflexivity].
  destruct (status_code resp =? 200); [|reflexivity].
  destruct (parse_ids R resp); reflexivity.
Qed.

Lemma collect_ids_breaks item items :
  In item items ->
  breaks_comprehension item = true ->
  exists e, collect_ids items = Raise e.
Proof.
  induction items as [|x items IH]; intros I Bk; [destruct I|].
  cbn [collect_ids].
  destruct I as [->|I].
  - destruct item as [| | | |s|l|]; cbn in Bk |- *; eauto;
      try discriminate; rewrite Bk; cbn; eauto.
  - destruct (IH I Bk) as (e & E). rewrite E.
    destruct (contains_key (lit "id") x) as [[|]|]; eauto.
    destruct (getitem_key x (lit "id")); eauto.
Qed.

(** X17. One bad item voids the whole track list.  When the list
    holds a null, a boolean or a number, or a string or list in which
    ["id"] is found, the comprehension raises, the handler prints the
    error and returns no id at all: [main] reports 0 without asking
    for any track, whatever the other items are. *)
Theorem bad_item_voids_track_list (h : trace) (resp : response)
    (items : list json) (item : json) :
  let p := EvPrint (LogFetching MUSICS_JSON_URL) in
  let g := EvGet MUSICS_JSON_URL (Ok resp) in
  requests_get W (h ++ [p]) MUSICS_JSON_URL = Ok resp ->
  status_code resp = 200 ->
  body resp = Some (JArr items) ->
  In item items ->
  breaks_comprehension item = true ->
  exists e,
    fetch_music_ids R W h = (Ok [], [p; g; EvPrint (LogParseError e)]) /\
    main R W key h =
      (Ok tt, [p; g; EvPrint (LogParseError e); EvPrint (LogFound 0);
               EvPrint (LogComplete 0)]).
Proof.
  intros p g G S B I Bk. subst p g.
  destruct (collect_ids_breaks item items I Bk) as (e & C).
  exists e.
  assert (F : fetch_music_ids R W h =
                (Ok [], [EvPrint (LogFetching MUSICS_JSON_URL);
                         EvGet MUSICS_JSON_URL (Ok resp);
                         EvPrint (LogParseError e)])).
  { rewrite fetch_music_ids_run. cbv zeta. rewrite G, S.
    change (200 =? 200) with true. cbv beta iota.
    unfold parse_ids, resp_json. rewrite B. cbn [iterate]. rewrite C.
    reflexivity. }
  split; [exact F|]. rewrite main_run, F. reflexivity.
Qed.

(** X18. A second bootstrap over a store that remembers creates
    nothing: once a creation call has returned, a later run of the
    bootstrap, whatever happened in between, makes no creation call. *)
Theorem second_bootstrap_creates_nothing (h h' : trace) :
  store_persists W ->
  fst (ensure_collection W h) = Ok tt ->
  creations (snd (ensure_collection W h)) <> [] ->
  creations
    (snd (ensure_collection W (h ++ snd (ensure_collection W h) ++ h'))) = [].
Proof.
  intros P Hok Hc. apply ensure_collection_second_run; assumption.
Qed.

End RunMore.

(** ** The start of the script and the whole program *)

Section Program.
Variable py_int : str -> option Z.
Variable R : Runtime.
Variable W : World.

(** X19. The script stops with exit code 1 exactly when
    [SILICONFLOW_API_KEY] or [QDRANT_HOST] is unset or empty, printing
    the error line last; [QDRANT_PORT] and [QDRANT_API_KEY] play no
    part in that.  Otherwise the client gets the host, with the Zeabur
    scheme rule applied, the port and the API key as they were read. *)
Theorem startup_exits_iff_config_missing (env : environ) :
  let missing := env_missing (env (lit "SILICONFLOW_API_KEY")) ||
                 env_missing (env (lit "QDRANT_HOST")) in
  let port := qdrant_port py_int env in
  (missing = true ->
   startup py_int env = (Exit 1, snd port ++ [ErrorMissingEnv])) /\
  (missing = false ->
   exists host,
     env (lit "QDRANT_HOST") = Some host /\
     startup py_int env =
       (Client (ClientArgs (client_url host) (fst port)
                  (env (lit "QDRANT_API_KEY"))),
        snd port)) /\
  (fst (startup py_int env) = Exit 1 <-> missing = true).
Proof.
  cbv zeta. unfold startup.
  destruct (qdrant_port py_int env) as [port lines]. cbn [fst snd].
  destruct (env_missing (env (lit "SILICONFLOW_API_KEY")) ||
            env_missing (env (lit "QDRANT_HOST"))) eqn:M.
  - repeat split; auto; discriminate.
  - apply orb_false_elim in M. destruct M as [_ Mh].
    destruct (env (lit "QDRANT_HOST")) as [host|]; [|discriminate Mh].
    repeat split; try discriminate. exists host. auto.
Qed.

(** X20. The scheme rule of the client URL: ["https://"] is put in
    front of a host that holds ["zeabur.app"] and does not start with
    ["http"], and of no other host.  Applying the rule twice changes
    nothing more, and a URL that holds ["zeabur.app"] after the rule
    starts with ["http"]. *)
Theorem client_url_scheme_rule (host : str) :
  (client_url host = host \/ client_url host = lit "https://" ++ host) /\
  client_url (client_url host) = client_url host /\
  (starts_with (lit "http") host = true -> client_url host = host) /\
  (contains host (lit "zeabur.app") = false -> client_url host = host) /\
  (contains (client_url host) (lit "zeabur.app") = true ->
   starts_with (lit "http") (client_url host) = true).
Proof.
  assert (P : forall u, starts_with (lit "http") (lit "https://" ++ u) = true)
    by reflexivity.
  assert (Q : forall u, starts_with (lit "http") u = true ->
                        client_url u = u).
  { intros u H. unfold client_url. rewrite H, andb_false_r. reflexivity. }
  destruct (contains host (lit "zeabur.app")) eqn:C;
    destruct (starts_with (lit "http") host) eqn:S.
  - assert (E : client_url host = host)
      by (unfold client_url; rewrite C, S; reflexivity).
    rewrite !E. repeat split; auto.
  - assert (E : client_url host = lit "https://" ++ host)
      by (unfold client_url; rewrite C, S; reflexivity).
    rewrite !E. repeat split; auto; try discriminate.
  - assert (E : client_url host = host)
      by (unfold client_url; rewrite C; reflexivity).
    rewrite !E. repeat split; auto.
  - assert (E : client_url host = host)
      by (unfold client_url; rewrite C; reflexivity).
    rewrite !E. repeat split; auto. congruence.
Qed.

(** X21. Without its configuration the program contacts nothing: when
    [SILICONFLOW_API_KEY] or [QDRANT_HOST] is unset or empty it ends
    with exit code 1 and an empty trace (no collection check, no
    request). *)
Theorem program_without_config_contacts_nothing (env : environ) :
  env_missing (env (lit "SILICONFLOW_API_KEY")) ||
  env_missing (env (lit "QDRANT_HOST")) = true ->
  program py_int R W env =
    (ExitCode 1, snd (qdrant_port py_int env) ++ [ErrorMissingEnv], []).
Proof.
  intros M. unfold program, startup.
  destruct (qdrant_port py_int env) as [port lines]. rewrite M. reflexivity.
Qed.

Lemma program_with_config (env : environ) :
  env_missing (env (lit "SILICONFLOW_API_KEY")) ||
  env_missing (env (lit "QDRANT_HOST")) = false ->
  exists k,
    env (lit "SILICONFLOW_API_KEY") = Some k /\
    program py_int R W env =
      (match fst (script R W k []) with
       | Ok _ => ExitCode 0
       | Raise e => Uncaught e
       end,
       snd (qdrant_port py_int env), snd (script R W k [])).
Proof.
  intros M. unfold program, startup.
  destruct (qdrant_port py_int env) as [port lines]. rewrite M.
  apply orb_false_elim in M. destruct M as [Mk Mh].
  destruct (env (lit "QDRANT_HOST")) as [host|]; [|discriminate Mh].
  destruct (env (lit "SILICONFLOW_API_KEY")) as [k|]; [|discriminate Mk].
  exists k. split; [reflexivity|].
  destruct (script R W k []) as [[[]|e] t]; reflexivity.
Qed.

(** X22. A bootstrap that raises (the store cannot be reached, the
    creation is refused) ends the program with that exception before
    [main] runs: no track list is fetched, no text is embedded, nothing
    is upserted. *)
Theorem bootstrap_failure_stops_the_program (env : environ) (e : exn) :
  env_missing (env (lit "SILICONFLOW_API_KEY")) ||
  env_missing (env (lit "QDRANT_HOST")) = false ->
  fst (ensure_collection W []) = Raise e ->
  let '(ending, _, t) := program py_int R W env in
  ending = Uncaught e /\
  t = snd (ensure_collection W []) /\
  gets t = [] /\ posts t = [] /\ upserts t = [].
Proof.
  intros M B.
  destruct (program_with_config env M) as (k & _ & ->).
  unfold script.
  rewrite (bind_raise (ensure_collection W) _ [] e
             (snd (ensure_collection W [])))
    by (rewrite <- B; apply pair_eta).
  cbn [fst snd]. split; [reflexivity|]. split; [reflexivity|].
  rewrite ensure_collection_run. cbv zeta.
  destruct (client_collection_exists W [] COLLECTION_NAME) as [[|]|x];
    repeat split.
Qed.

(** X23. With its configuration, a bootstrap that returns and a track
    list request that does not raise, the program ends with exit code
    0, whatever the tracks, the embedding service and the upserts did:
    no failure below the track list changes the exit code. *)
Theorem track_failures_keep_exit_code_zero (env : environ) :
  env_missing (env (lit "SILICONFLOW_API_KEY")) ||
  env_missing (env (lit "QDRANT_HOST")) = false ->
  fst (ensure_collection W []) = Ok tt ->
  (forall e,
     requests_get W (snd (ensure_collection W []) ++
                     [EvPrint (LogFetching MUSICS_JSON_URL)])
       MUSICS_JSON_URL <> Raise e) ->
  fst (fst (program py_int R W env)) = ExitCode 0.
Proof.
  intros M B G.
  destruct (program_with_config env M) as (k & _ & ->).
  cbn [fst]. unfold script.
  rewrite (bind_ok (ensure_collection W) _ [] tt
             (snd (ensure_collection W [])))
    by (rewrite <- B; apply pair_eta).
  cbn [fst app].
  rewrite main_run, fetch_music_ids_run. cbv zeta.
  specialize (G) as G'.
  destruct (requests_get W _ MUSICS_JSON_URL) as [resp|e];
    [|exfalso; exact (G' e eq_refl)].
  destruct (status_code resp =? 200); [|reflexivity].
  destruct (parse_ids R resp); reflexivity.
Qed.

End Program.

(** ** The further properties on concrete runs *)

Lemma integer_key_tells_the_pair_witness :
  raw_key Demo.runtime (JInt 7) (JStr (lit "TYW")) =
    raw_key Demo.runtime (JInt 7) (JStr (lit "TYW")) /\
  (7 = 7 /\ lit "TYW" = lit "TYW").
Proof.
  split; [reflexivity|].
  exact (integer_key_tells_the_pair Demo.runtime 7 7 (lit "TYW") (lit "TYW")
           eq_refl).
Defined.

Lemma utf8_bytes_read_back_witness :
  utf8_encode [233%N; 0x1F600%N] = Some [0xC3; 0xA9; 0xF0; 0x9F; 0x98; 0x80] /\
  utf8_decode 2 [0xC3; 0xA9; 0xF0; 0x9F; 0x98; 0x80] =
    Some [233%N; 0x1F600%N].
Proof.
  assert (E : utf8_encode [233%N; 0x1F600%N] =
              Some [0xC3; 0xA9; 0xF0; 0x9F; 0x98; 0x80])
    by (vm_compute; reflexivity).
  split; [exact E|].
  exact (proj1 (utf8_bytes_read_back [233%N; 0x1F600%N] _ E)).
Defined.

Lemma integer_key_bytes_tell_the_pair_witness :
  utf8_encode (raw_key Demo.runtime (JInt 7) (JStr (lit "TYW"))) =
    Some (Demo.key_bytes Demo.tyw) /\
  (7 = 7 /\ lit "TYW" = lit "TYW").
Proof.
  assert (E : utf8_encode (raw_key Demo.runtime (JInt 7) (JStr (lit "TYW"))) =
              Some (Demo.key_bytes Demo.tyw))
    by (vm_compute; reflexivity).
  split; [exact E|].
  exact (integer_key_bytes_tell_the_pair Demo.runtime 7 7 (lit "TYW")
           (lit "TYW") _ E E).
Defined.

Lemma id_is_uuid_shaped_witness :
  generate_uuid Demo.runtime (JInt 7) Demo.tyw =
    Ok (lit "da8389d9-68fc-479d-f2f3-c8be14bbb3d5") /\
  uuid_shaped (lit "da8389d9-68fc-479d-f2f3-c8be14bbb3d5") = true.
Proof.
  assert (G : generate_uuid Demo.runtime (JInt 7) Demo.tyw =
              Ok (lit "da8389d9-68fc-479d-f2f3-c8be14bbb3d5"))
    by (vm_compute; reflexivity).
  split; [exact G|].
  exact (id_is_uuid_shaped Demo.runtime (JInt 7) Demo.tyw _ G).
Defined.

Lemma get_embedding_raises_witness :
  let W := Demo.world_with_reply (Ok Demo.no_embedding_key) in
  post_answer W Demo.key [] Demo.tell_your_world = Ok Demo.no_embedding_key /\
  get_embedding W Demo.key Demo.tell_your_world [] =
    (Raise KeyError, [post_event W Demo.key [] Demo.tell_your_world]).
Proof.
  intros W.
  assert (A : post_answer W Demo.key [] Demo.tell_your_world =
              Ok Demo.no_embedding_key) by (vm_compute; reflexivity).
  split; [exact A|].
  destruct (get_embedding_raises W Demo.key [] Demo.tell_your_world)
    as [_ Malformed].
  destruct (Malformed Demo.no_embedding_key A eq_refl) as (T & _ & _ & D).
  rewrite (pair_eta (get_embedding W Demo.key Demo.tell_your_world [])).
  rewrite T.
  rewrite (D [ (lit "data", JArr [ JObj [] ]) ] (JArr [ JObj [] ])
             eq_refl eq_refl eq_refl eq_refl).
  reflexivity.
Defined.

Lemma api_error_contributes_nothing_witness :
  let R := Demo.runtime in
  let W := Demo2.world_with_get (fun _ => Ok Demo2.unavailable) in
  requests_get W [] (song_url R (JInt 7)) = Ok Demo2.unavailable /\
  index_song R W Demo.key (JInt 7) [] =
    (Ok 0, [ EvGet (song_url R (JInt 7)) (Ok Demo2.unavailable);
             EvPrint (LogApiError (JInt 7) 503) ]).
Proof.
  intros R W. split; [reflexivity|].
  assert (S2 : status_code Demo2.unavailable <> 200) by discriminate.
  assert (S4 : status_code Demo2.unavailable <> 404) by discriminate.
  exact (proj1 (api_error_contributes_nothing R W Demo.key (JInt 7) []
                  Demo2.unavailable eq_refl S2 S4)).
Defined.

Lemma fetch_failure_is_logged_and_skipped_witness :
  let R := Demo.runtime in
  let W := Demo2.world_with_get (fun _ => Raise (LibraryError 0)) in
  requests_get W [] (song_url R (JInt 7)) = Raise (LibraryError 0) /\
  main_step R W Demo.key (JInt 7) 5 [] =
    (Ok 5, [ EvGet (song_url R (JInt 7)) (Raise (LibraryError 0));
             EvPrint (LogIndexError (JInt 7) (LibraryError 0)) ]).
Proof.
  intros R W. split; [reflexivity|].
  exact (proj2 (fetch_failure_is_logged_and_skipped R W Demo.key (JInt 7) []
                  (LibraryError 0) eq_refl) 5).
Defined.

Lemma no_aliases_no_requests_witness :
  let R := Demo.runtime in
  let W := Demo2.world_with_get (fun _ => Ok Demo2.no_aliases) in
  requests_get W [] (song_url R (JInt 7)) = Ok Demo2.no_aliases /\
  index_song R W Demo.key (JInt 7) [] =
    (Ok 0, [EvGet (song_url R (JInt 7)) (Ok Demo2.no_aliases)]).
Proof.
  intros R W. split; [reflexivity|].
  destruct (no_aliases_no_requests R W Demo.key (JInt 7) [] Demo2.no_aliases
              eq_refl eq_refl) as [Absent _].
  exact (Absent [ (lit "title", JStr (lit "TYW")) ] eq_refl I).
Defined.

Lemma aliases_embedded_in_order_witness :
  let R := Demo.runtime in
  let W := Demo.world 2 in
  requests_get W [] (song_url R (JInt 7)) = Ok Demo.resp_7 /\
  posts (snd (index_song R W Demo.key (JInt 7) [])) =
    [Demo.tell_your_world; Demo.tyw].
Proof.
  intros R W.
  assert (G : requests_get W [] (song_url R (JInt 7)) = Ok Demo.resp_7)
    by (vm_compute; reflexivity).
  split; [exact G|].
  destruct (aliases_embedded_in_order R W Demo.key (JInt 7) [] Demo.resp_7
              Demo.fields_7 [Demo.tell_your_world; Demo.tyw]
              G eq_refl eq_refl eq_refl) as (_ & _ & Returned).
  apply (Returned 2). vm_compute. reflexivity.
Defined.

Lemma batch_follows_the_aliases_witness :
  let R := Demo.runtime in
  let W := Demo.world 2 in
  In (EvUpsert COLLECTION_NAME Demo.points_7 (Ok tt))
     (snd (index_song R W Demo.key (JInt 7) [])) /\
  exists kept,
    subsequence kept [Demo.tell_your_world; Demo.tyw] /\
    map point_payload Demo.points_7 = map (alias_payload (JInt 7)) kept /\
    map (fun p => Ok (point_id p)) Demo.points_7 =
      map (generate_uuid R (JInt 7)) kept /\
    (length Demo.points_7 <= 2)%nat.
Proof.
  intros R W.
  assert (I : In (EvUpsert COLLECTION_NAME Demo.points_7 (Ok tt))
                (snd (index_song R W Demo.key (JInt 7) []))).
  { vm_compute. do 3 right. left. reflexivity. }
  split; [exact I|].
  assert (G : requests_get W [] (song_url R (JInt 7)) = Ok Demo.resp_7)
    by (vm_compute; reflexivity).
  exact (batch_follows_the_aliases R W Demo.key (JInt 7) [] Demo.resp_7
           Demo.fields_7 [Demo.tell_your_world; Demo.tyw] COLLECTION_NAME
           Demo.points_7 (Ok tt) G eq_refl eq_refl I).
Defined.

Lemma total_bounded_by_requests_witness :
  let t := snd (main Demo.runtime (Demo.world 2) Demo.key []) in
  main Demo.runtime (Demo.world 2) Demo.key [] = (Ok tt, t) /\
  exists n t0,
    t = t0 ++ [EvPrint (LogComplete n)] /\
    0 <= n <= Z.of_nat (length (posts t)).
Proof.
  intros t.
  assert (M : main Demo.runtime (Demo.world 2) Demo.key [] = (Ok tt, t))
    by (vm_compute; reflexivity).
  split; [exact M|].
  exact (total_bounded_by_requests Demo.runtime (Demo.world 2) Demo.key [] t M).
Defined.

Lemma bad_item_voids_track_list_witness :
  let R := Demo.runtime in
  let W := Demo2.world_with_get (fun _ => Ok Demo2.resp_with_null) in
  In JNull Demo2.musics_with_null /\
  exists e,
    main R W Demo.key [] =
      (Ok tt,
       [ EvPrint (LogFetching MUSICS_JSON_URL);
         EvGet MUSICS_JSON_URL (Ok Demo2.resp_with_null);
         EvPrint (LogParseError e); EvPrint (LogFound 0);
         EvPrint (LogComplete 0) ]).
Proof.
  intros R W.
  assert (I : In JNull Demo2.musics_with_null) by (right; left; reflexivity).
  split; [exact I|].
  destruct (bad_item_voids_track_list R W Demo.key [] Demo2.resp_with_null
              Demo2.musics_with_null JNull eq_refl eq_refl eq_refl I eq_refl)
    as (e & _ & M).
  exists e. exact M.
Defined.

Lemma demo_store_persists : store_persists (Demo.world 2).
Proof.
  intros h name size dist I. cbn [Demo.world client_collection_exists].
  f_equal. apply existsb_exists.
  exists (EvCreate name size dist (Ok tt)). split; [exact I|reflexivity].
Qed.

Lemma second_bootstrap_creates_nothing_witness :
  fst (ensure_collection (Demo.world 2) []) = Ok tt /\
  creations (snd (ensure_collection (Demo.world 2) [])) <> [] /\
  creations
    (snd (ensure_collection (Demo.world 2)
            ([] ++ snd (ensure_collection (Demo.world 2) []) ++
             snd (main Demo.runtime (Demo.world 2) Demo.key [])))) = [].
Proof.
  assert (B : fst (ensure_collection (Demo.world 2) []) = Ok tt)
    by (vm_compute; reflexivity).
  assert (C : creations (snd (ensure_collection (Demo.world 2) [])) <> [])
    by (vm_compute; discriminate).
  split; [exact B|]. split; [exact C|].
  exact (second_bootstrap_creates_nothing (Demo.world 2) [] _
           demo_store_persists B C).
Defined.

Lemma startup_exits_iff_config_missing_witness :
  startup int_of_decimal Demo2.env_empty = (Exit 1, [ErrorMissingEnv]) /\
  startup int_of_decimal Demo2.env_full =
    (Client (ClientArgs (lit "https://qdrant.example.zeabur.app") (Some 6333)
               None), []).
Proof.
  split.
  - exact (proj1 (startup_exits_iff_config_missing int_of_decimal
                    Demo2.env_empty) eq_refl).
  - destruct (proj1 (proj2 (startup_exits_iff_config_missing int_of_decimal
                              Demo2.env_full)) eq_refl) as (host & Eh & S).
    rewrite S. vm_compute in Eh. injection Eh as <-.
    vm_compute. reflexivity.
Defined.

Lemma client_url_scheme_rule_witness :
  client_url (lit "qdrant.example.zeabur.app") =
    lit "https://qdrant.example.zeabur.app" /\
  client_url (client_url (lit "qdrant.example.zeabur.app")) =
    client_url (lit "qdrant.example.zeabur.app") /\
  client_url (lit "httpbin.zeabur.app") = lit "httpbin.zeabur.app".
Proof.
  split; [reflexivity|]. split.
  - exact (proj1 (proj2 (client_url_scheme_rule
                           (lit "qdrant.example.zeabur.app")))).
  - exact (proj1 (proj2 (proj2 (client_url_scheme_rule
                                  (lit "httpbin.zeabur.app")))) eq_refl).
Defined.

Lemma program_without_config_contacts_nothing_witness :
  program int_of_decimal Demo.runtime (Demo.world 2) Demo2.env_empty =
    (ExitCode 1, [ErrorMissingEnv], []).
Proof.
  exact (program_without_config_contacts_nothing int_of_decimal Demo.runtime
           (Demo.world 2) Demo2.env_empty eq_refl).
Defined.

Lemma bootstrap_failure_stops_the_program_witness :
  fst (ensure_collection Demo2.world_down []) = Raise (LibraryError 503) /\
  program int_of_decimal Demo.runtime Demo2.world_down Demo2.env_full =
    (Uncaught (LibraryError 503), [],
     [EvExists COLLECTION_NAME (Raise (LibraryError 503))]).
Proof.
  split; [reflexivity|].
  pose proof (bootstrap_failure_stops_the_program int_of_decimal Demo.runtime
                Demo2.world_down Demo2.env_full (LibraryError 503)
                eq_refl eq_refl) as H.
  destruct (program int_of_decimal Demo.runtime Demo2.world_down
              Demo2.env_full) as [[ending lines] t] eqn:P.
  destruct H as (-> & -> & _).
  vm_compute in P. injection P as <-. reflexivity.
Defined.

Lemma track_failures_keep_exit_code_zero_witness :
  fst (ensure_collection (Demo.world 2) []) = Ok tt /\
  fst (fst (program int_of_decimal Demo.runtime (Demo.world 2)
              Demo2.env_full)) = ExitCode 0.
Proof.
  split; [reflexivity|].
  apply (track_failures_keep_exit_code_zero int_of_decimal Demo.runtime
           (Demo.world 2) Demo2.env_full eq_refl eq_refl).
  intros e. vm_compute. discriminate.
Defined.

Lemma encodes_iff_well_formed_witness :
  well_formed (raw_key Demo.runtime (JInt 7) (JStr [0xD800%N])) = false /\
  generate_uuid Demo.runtime (JInt 7) (JStr [0xD800%N]) =
    Raise UnicodeEncodeError.
Proof.
  assert (WF : well_formed (raw_key Demo.runtime (JInt 7) (JStr [0xD800%N])) =
               false) by (vm_compute; reflexivity).
  split; [exact WF|].
  exact (proj2 (proj2 (encodes_iff_well_formed Demo.runtime (JInt 7)
                         (JStr [0xD800%N]))) WF).
Defined.
